(** * musik: the audio-reactive pipeline of [src/script.js]

    A shallow embedding of [setAudioMeter], [updateAudioReactive] and the
    master [frame] loop, and the properties of the band-energy extractor,
    the smoothing filter and the adaptive beat detector.

    Numbers.  JavaScript numbers are IEEE doubles; here they are exact
    rationals ([Q]), compared with [==].  Every decimal constant of the
    source (0.9, 0.92, 0.72, 0.28, 0.84, 0.16, 0.14, 1.32, 0.17, 0.95, ...)
    is the rational it denotes.  Rounding, infinities and NaN are outside
    the model.  The only divisions whose divisor can vanish in the source
    are [.. / frequencyData.length] for an empty buffer and
    [.. / hzPerBin] for a zero sample rate; Web Audio gives neither, and the
    theorems about the extracted energies assume a valid snapshot (a
    positive rate, at least one bin).  Bin indices and byte sums are
    integers ([Z]). *)

From Stdlib Require Import ZArith QArith Qround Lqa Lia List Bool.
From Stdlib Require Import Qabs Ascii.
From Stdlib Require String.
Import String.StringSyntax Ascii.AsciiSyntax.
Import ListNotations.

Open Scope Q_scope.
Delimit Scope string_scope with string.
Delimit Scope char_scope with char.

(** ** The [Math] functions the source uses *)

Definition Math_max (a b : Q) : Q := if Qlt_le_dec a b then b else a.
Definition Math_min (a b : Q) : Q := if Qlt_le_dec b a then b else a.
Definition Math_floor (x : Q) : Z := Qfloor x.

(** [a > b] of the source, as a boolean. *)
Definition gtb (a b : Q) : bool := if Qlt_le_dec b a then true else false.

(** ** Host objects

    The globals the DOM and Web Audio provide.  Each is [None] while the
    source holds [null] in it. *)

(** [analyserNode]: the magnitudes [getByteFrequencyData] delivers now. *)
Record AnalyserNode := { byteFrequencyData : list Z }.

Record AudioContext := { sampleRate : Q }.

Record AudioElement := { paused : bool }.

(** The style of [audioMeterFill]: the factor of [scaleX(...)] and the
    opacity. *)
Record MeterFill := { scaleX : Q; opacity : Q }.

Record Host := {
  analyserNode : option AnalyserNode;
  frequencyData : option (list Z);
  audioContext : option AudioContext;
  audioElement : option AudioElement;
  audioMeterFill : option MeterFill
}.

(** ** Pipeline state: the reactive globals *)

Record State := {
  audioLevel : Q;
  audioBass : Q;
  beatPulse : Q;
  beatGateUntil : Q;
  beatHistorySum : Q;
  beatHistory : list Q
}.

(** The values the globals are declared with. *)
Definition initialState : State :=
  {| audioLevel := 0; audioBass := 0; beatPulse := 0; beatGateUntil := 0;
     beatHistorySum := 0; beatHistory := [] |}.

Definition set_beatPulse (p : Q) (s : State) : State :=
  {| audioLevel := audioLevel s; audioBass := audioBass s; beatPulse := p;
     beatGateUntil := beatGateUntil s; beatHistorySum := beatHistorySum s;
     beatHistory := beatHistory s |}.

Definition set_audioLevel (l : Q) (s : State) : State :=
  {| audioLevel := l; audioBass := audioBass s; beatPulse := beatPulse s;
     beatGateUntil := beatGateUntil s; beatHistorySum := beatHistorySum s;
     beatHistory := beatHistory s |}.

Definition set_audioBass (b : Q) (s : State) : State :=
  {| audioLevel := audioLevel s; audioBass := b; beatPulse := beatPulse s;
     beatGateUntil := beatGateUntil s; beatHistorySum := beatHistorySum s;
     beatHistory := beatHistory s |}.

Definition set_beatGateUntil (g : Q) (s : State) : State :=
  {| audioLevel := audioLevel s; audioBass := audioBass s;
     beatPulse := beatPulse s; beatGateUntil := g;
     beatHistorySum := beatHistorySum s; beatHistory := beatHistory s |}.

Definition set_history (sum : Q) (h : list Q) (s : State) : State :=
  {| audioLevel := audioLevel s; audioBass := audioBass s;
     beatPulse := beatPulse s; beatGateUntil := beatGateUntil s;
     beatHistorySum := sum; beatHistory := h |}.

(** ** [setAudioMeter] *)

Definition clampMeter (level : Q) : Q := Math_max 0.03 (Math_min 1 level).

Definition setAudioMeter (fill : option MeterFill) (level : Q)
  : option MeterFill :=
  match fill with
  | None => None
  | Some _ =>
      let clamped := clampMeter level in
      Some {| scaleX := clamped; opacity := 0.3 + clamped * 0.7 |}
  end.

(** ** [updateAudioReactive] *)

(** [analyserNode.getByteFrequencyData(frequencyData)]: the buffer takes as
    many magnitudes as it has room for; entries past the delivered ones
    keep their value. *)
Definition getByteFrequencyData (node : AnalyserNode) (buf : list Z)
  : list Z :=
  firstn (length buf) (byteFrequencyData node)
    ++ skipn (length (byteFrequencyData node)) buf.

(** [for (let i = start; i <= stop; i += 1) sum += data[i]], counted down on
    the number of iterations left. *)
Fixpoint sumFrom (data : list Z) (i : Z) (n : nat) (acc : Z) : Z :=
  match n with
  | O => acc
  | S n' => sumFrom data (i + 1) n' (acc + nth (Z.to_nat i) data 0)%Z
  end.

Definition sumBins (data : list Z) (start stop : Z) : Z :=
  sumFrom data start (Z.to_nat (stop - start + 1)) 0.

Definition hzPerBin (rate : Q) (data : list Z) : Q :=
  (rate * 0.5) / inject_Z (Z.of_nat (length data)).

Definition bassStart (rate : Q) (data : list Z) : Z :=
  Z.max 0 (Math_floor (30 / hzPerBin rate data)).

Definition bassEnd (rate : Q) (data : list Z) : Z :=
  Z.min (Z.of_nat (length data) - 1) (Math_floor (180 / hzPerBin rate data)).

Definition bodyEnd (rate : Q) (data : list Z) : Z :=
  Z.min (Z.of_nat (length data) - 1) (Math_floor (1800 / hzPerBin rate data)).

Definition bassValue (rate : Q) (data : list Z) : Q :=
  let bs := bassStart rate data in
  let be := bassEnd rate data in
  inject_Z (sumBins data bs be)
    / (inject_Z (Z.max 1 (be - bs + 1)) * 255).

Definition bodyValue (rate : Q) (data : list Z) : Q :=
  let be := bodyEnd rate data in
  inject_Z (sumBins data 0 be) / (inject_Z (Z.max 1 (be + 1)) * 255).

(** [beatHistory.push(audioBass); beatHistorySum += audioBass;
    if (beatHistory.length > 42) beatHistorySum -= beatHistory.shift();]
    The history is kept oldest first. *)
Definition pushHistory (s : State) : State :=
  let h := beatHistory s ++ [audioBass s] in
  let sum := beatHistorySum s + audioBass s in
  if (42 <? length h)%nat then
    match h with
    | oldest :: rest => set_history (sum - oldest) rest s
    | [] => set_history sum h s
    end
  else set_history sum h s.

Definition averageBass (s : State) : Q :=
  if (0 <? length (beatHistory s))%nat
  then beatHistorySum s / inject_Z (Z.of_nat (length (beatHistory s)))
  else 0.

Definition threshold (s : State) : Q := Math_max 0.14 (averageBass s * 1.32).

(** The condition of the detector's [if], on the state after the push. *)
Definition beatDetected (timeSeconds : Q) (s : State) : bool :=
  gtb (audioBass s) (threshold s) && gtb timeSeconds (beatGateUntil s).

Definition detectBeat (timeSeconds : Q) (s : State) : State :=
  if beatDetected timeSeconds s
  then set_beatGateUntil (timeSeconds + 0.17) (set_beatPulse 1 s)
  else set_beatPulse (beatPulse s * 0.95) s.

(** The guard [!analyserNode || !frequencyData || !audioElement ||
    audioElement.paused]: the analyser and the buffer when audio is live. *)
Definition audioSource (h : Host) : option (AnalyserNode * list Z) :=
  match analyserNode h, frequencyData h, audioElement h with
  | Some node, Some buf, Some el =>
      if paused el then None else Some (node, buf)
  | _, _, _ => None
  end.

(** How a call ends: normally, with the new globals and the meter's style,
    or with a [TypeError] (a property read on [null]), with the globals as
    they were when it was thrown. *)
Inductive Completion :=
| Return (s : State) (fill : option MeterFill)
| Throw (s : State).

(** The branch taken without a live source. *)
Definition decayOnly (h : Host) (s : State) : Completion :=
  let s := set_audioLevel (audioLevel s * 0.92) s in
  let s := set_audioBass (audioBass s * 0.9) s in
  Return s (setAudioMeter (audioMeterFill h)
              (audioLevel s * 1.15 + beatPulse s * 0.35)).

(** The smoothing filter: the two moving averages, bass first. *)
Definition smooth (rate : Q) (data : list Z) (s : State) : State :=
  let s := set_audioBass (audioBass s * 0.72 + bassValue rate data * 0.28) s in
  set_audioLevel (audioLevel s * 0.84 + bodyValue rate data * 0.16) s.

(** The rest of the body, on the filled buffer. *)
Definition analyse (h : Host) (rate : Q) (data : list Z) (timeSeconds : Q)
    (s : State) : Completion :=
  let s := smooth rate data s in
  let s := pushHistory s in
  let s := detectBeat timeSeconds s in
  Return s (setAudioMeter (audioMeterFill h)
              (audioLevel s * 1.4 + beatPulse s * 0.5)).

Definition updateAudioReactive (h : Host) (timeSeconds : Q) (s : State)
  : Completion :=
  let s := set_beatPulse (beatPulse s * 0.9) s in
  match audioSource h with
  | None => decayOnly h s
  | Some (node, buf) =>
      let data := getByteFrequencyData node buf in
      match audioContext h with
      | None => Throw s
      | Some ctx => analyse h (sampleRate ctx) data timeSeconds s
      end
  end.

Definition stateOf (c : Completion) : State :=
  match c with Return s _ => s | Throw s => s end.

(** The state a live call starts the detector from: the pulse decayed, the
    averages updated, the smoothed bass pushed. *)
Definition beforeDetector (rate : Q) (data : list Z) (s : State) : State :=
  pushHistory (smooth rate data (set_beatPulse (beatPulse s * 0.9) s)).

(** Whether the call takes the detector's [then] branch: the beat event. *)
Definition beatFired (h : Host) (timeSeconds : Q) (s : State) : bool :=
  match audioSource h, audioContext h with
  | Some (node, buf), Some ctx =>
      beatDetected timeSeconds
        (beforeDetector (sampleRate ctx) (getByteFrequencyData node buf) s)
  | _, _ => false
  end.

(** ** The [frame] loop *)

(** One animation frame: the host as it is at that frame and the time stamp
    (milliseconds) [requestAnimationFrame] passes. *)
Record Frame := { host : Host; time : Q }.

Definition seconds (f : Frame) : Q := time f * 0.001.

Definition frame (f : Frame) (s : State) : Completion :=
  updateAudioReactive (host f) (seconds f) s.

(** The globals after the frames, in order.  A frame that throws never
    reaches [requestAnimationFrame(frame)]: the loop ends there. *)
Fixpoint run (fs : list Frame) (s : State) : State :=
  match fs with
  | [] => s
  | f :: fs' =>
      match frame f s with
      | Return s' _ => run fs' s'
      | Throw s' => s'
      end
  end.

(** The time stamps (seconds) of the beats of a run, in order. *)
Fixpoint beats (fs : list Frame) (s : State) : list Q :=
  match fs with
  | [] => []
  | f :: fs' =>
      match frame f s with
      | Return s' _ =>
          if beatFired (host f) (seconds f) s
          then seconds f :: beats fs' s'
          else beats fs' s'
      | Throw _ => []
      end
  end.

(** [ensureAudioEngine] creates the context and the analyser together: a
    host with an analyser has a context. *)
Definition engineCoherent (h : Host) : bool :=
  match analyserNode h, audioContext h with
  | Some _, None => false
  | _, _ => true
  end.

(** ** Predicates of the specification *)

Definition unit_interval (x : Q) : Prop := 0 <= x /\ x <= 1.


(** A valid frequency snapshot: a positive sample rate, at least one bin,
    every magnitude a byte. *)
Definition validSnapshot (rate : Q) (data : list Z) : Prop :=
  0 < rate /\ (1 <= length data)%nat
  /\ Forall (fun b => (0 <= b <= 255)%Z) data.

(** The bins [a .. b] of a snapshot, both ends included. *)
Definition slice (data : list Z) (a b : Z) : list Z :=
  firstn (Z.to_nat (b - a + 1)) (skipn (Z.to_nat a) data).

Definition sumZ (l : list Z) : Z := fold_right Z.add 0%Z l.








Fixpoint qpow (q : Q) (n : nat) : Q :=
  match n with
  | O => 1
  | S n' => q * qpow q n'
  end.

(** A host whose live snapshot, if it has one, is valid. *)
Definition validHost (h : Host) : Prop :=
  match audioSource h, audioContext h with
  | Some (node, buf), Some ctx =>
      validSnapshot (sampleRate ctx) (getByteFrequencyData node buf)
  | _, _ => True
  end.

(** A host whose live snapshot, if it has one, yields energies in
    [0, 1]. *)
Definition normalizedHost (h : Host) : Prop :=
  match audioSource h, audioContext h with
  | Some (node, buf), Some ctx =>
      unit_interval (bassValue (sampleRate ctx) (getByteFrequencyData node buf))
      /\ unit_interval
           (bodyValue (sampleRate ctx) (getByteFrequencyData node buf))
  | _, _ => True
  end.

Definition bytesb (data : list Z) : bool :=
  forallb (fun b => (0 <=? b)%Z && (b <=? 255)%Z) data.

(** ** Sample hosts

    The page as the source sets it up ([fftSize = 1024], hence 512 bins) at
    a sample rate of 44100 Hz, with the five bass bins saturated; the same
    page paused; and the page before the audio engine exists. *)

Definition bassSpectrum : list Z := repeat 255%Z 5 ++ repeat 0%Z 507.

Definition meterAtRest : MeterFill := {| scaleX := 0.03; opacity := 0.321 |}.

Definition liveHost : Host :=
  {| analyserNode := Some {| byteFrequencyData := bassSpectrum |};
     frequencyData := Some (repeat 0%Z 512);
     audioContext := Some {| sampleRate := 44100 |};
     audioElement := Some {| paused := false |};
     audioMeterFill := Some meterAtRest |}.

Definition pausedHost : Host :=
  {| analyserNode := Some {| byteFrequencyData := bassSpectrum |};
     frequencyData := Some (repeat 0%Z 512);
     audioContext := Some {| sampleRate := 44100 |};
     audioElement := Some {| paused := true |};
     audioMeterFill := Some meterAtRest |}.

Definition bareHost : Host :=
  {| analyserNode := None; frequencyData := None; audioContext := None;
     audioElement := Some {| paused := true |};
     audioMeterFill := Some meterAtRest |}.

(** Frames 16 ms apart on one host, the first at [start]. *)
Fixpoint framesOn (h : Host) (start : Q) (n : nat) : list Frame :=
  match n with
  | O => []
  | S n' => {| host := h; time := start |} :: framesOn h (start + 16) n'
  end.

(** The state right after a beat. *)
Definition afterBeat : State :=
  {| audioLevel := 0.5; audioBass := 0.5; beatPulse := 1;
     beatGateUntil := 1.17; beatHistorySum := 0.5; beatHistory := [0.5] |}.

(** ** More about the pipeline *)

(** The smoothed bass values the live frames of a run push on the history,
    in order. *)
Fixpoint pushes (fs : list Frame) (s : State) : list Q :=
  match fs with
  | [] => []
  | f :: fs' =>
      match frame f s with
      | Return s' _ =>
          match audioSource (host f) with
          | Some _ => audioBass s' :: pushes fs' s'
          | None => pushes fs' s'
          end
      | Throw _ => []
      end
  end.

(** The last [n] elements of a list. *)
Definition lastn {A : Type} (n : nat) (l : list A) : list A :=
  skipn (length l - n) l.

(** A host whose live snapshot, if it has one, has a bass energy at or
    below the floor of the threshold. *)
Definition quietHost (h : Host) : Prop :=
  match audioSource h, audioContext h with
  | Some (node, buf), Some ctx =>
      bassValue (sampleRate ctx) (getByteFrequencyData node buf) <= 0.14
  | _, _ => True
  end.

(** The sample page while the track is silent. *)
Definition silentHost : Host :=
  {| analyserNode := Some {| byteFrequencyData := repeat 0%Z 512 |};
     frequencyData := Some (repeat 0%Z 512);
     audioContext := Some {| sampleRate := 44100 |};
     audioElement := Some {| paused := false |};
     audioMeterFill := Some meterAtRest |}.

(** ** [hexToRgb]

    Strings are sequences of code units; the model has the code units
    below 256. *)

Module Rgb.
Record t := { r : Z; g : Z; b : Z }.
End Rgb.

(** What [Number.parseInt] returns: not a number, an infinity, or an
    integer (the sign of a zero or of an infinity does not reach the bit
    operations). *)
Inductive JsInteger :=
| NaN
| Infinity
| Int (n : Z).

(** [hex.replace("#", "")]: the first [#] goes. *)
Fixpoint replaceFirstHash (hex : String.string) : String.string :=
  match hex with
  | String.EmptyString => String.EmptyString
  | String.String c rest =>
      if Ascii.eqb c "#"%char then rest
      else String.String c (replaceFirstHash rest)
  end.

(** [sanitized.split("").map((value) => value + value).join("")]. *)
Fixpoint doubleChars (sanitized : String.string) : String.string :=
  match sanitized with
  | String.EmptyString => String.EmptyString
  | String.String c rest => String.String c (String.String c (doubleChars rest))
  end.

(** The white space and the line terminators [parseInt] skips: TAB, LF, VT,
    FF, CR, SP and NBSP. *)
Definition isWhiteSpace (c : ascii) : bool :=
  let n := N_of_ascii c in
  ((n =? 9) || (n =? 10) || (n =? 11) || (n =? 12) || (n =? 13)
   || (n =? 32) || (n =? 160))%N.

Fixpoint trimStart (s : String.string) : String.string :=
  match s with
  | String.EmptyString => String.EmptyString
  | String.String c rest => if isWhiteSpace c then trimStart rest else s
  end.

(** The value of a digit of radix 16, in either case. *)
Definition hexDigitValue (c : ascii) : option Z :=
  let n := Z.of_N (N_of_ascii c) in
  if ((48 <=? n) && (n <=? 57))%Z then Some (n - 48)%Z
  else if ((97 <=? n) && (n <=? 102))%Z then Some (n - 87)%Z
  else if ((65 <=? n) && (n <=? 70))%Z then Some (n - 55)%Z
  else None.

(** The number the digits at the start of [s] write after the digits
    already read, [None] when no digit was read at all. *)
Fixpoint hexDigits (s : String.string) (read : option Z) : option Z :=
  match s with
  | String.EmptyString => read
  | String.String c rest =>
      match hexDigitValue c with
      | Some d =>
          hexDigits rest
            (Some (match read with Some n => n * 16 + d | None => d end)%Z)
      | None => read
      end
  end.

(** The double nearest to an integer, ties to the even mantissa; integers
    below 2^53 in size are doubles. *)
Definition roundToDouble (n : Z) : JsInteger :=
  let a := Z.abs n in
  if (a <? 2 ^ 53)%Z then Int n
  else
    let e := (Z.log2 a - 52)%Z in
    let q := Z.shiftr a e in
    let rest := (a - Z.shiftl q e)%Z in
    let half := (2 ^ (e - 1))%Z in
    let q' :=
      if (rest <? half)%Z then q
      else if (half <? rest)%Z then (q + 1)%Z
      else if Z.even q then q else (q + 1)%Z in
    let v := Z.shiftl q' e in
    if (2 ^ 1024 <=? v)%Z then Infinity else Int (Z.sgn n * v).

(** [Number.parseInt(chunk, 16)]. *)
Definition parseInt16 (chunk : String.string) : JsInteger :=
  let s := trimStart chunk in
  let '(sign, s) :=
    match s with
    | String.String c rest =>
        if Ascii.eqb c "-"%char then ((-1)%Z, rest)
        else if Ascii.eqb c "+"%char then (1%Z, rest)
        else (1%Z, s)
    | String.EmptyString => (1%Z, s)
    end in
  let s :=
    match s with
    | String.String c1 (String.String c2 rest) =>
        if Ascii.eqb c1 "0"%char
           && (Ascii.eqb c2 "x"%char || Ascii.eqb c2 "X"%char)
        then rest else s
    | _ => s
    end in
  match hexDigits s None with
  | None => NaN
  | Some mathInt => roundToDouble (sign * mathInt)
  end.

(** The conversion the bit operators apply to their operands. *)
Definition ToInt32 (x : JsInteger) : Z :=
  match x with
  | NaN | Infinity => 0%Z
  | Int n =>
      let m := (n mod 2 ^ 32)%Z in
      if (2 ^ 31 <=? m)%Z then (m - 2 ^ 32)%Z else m
  end.

Definition hexToRgb (hex : String.string) : Rgb.t :=
  let sanitized := replaceFirstHash hex in
  let chunk :=
    if (String.length sanitized =? 3)%nat then doubleChars sanitized
    else sanitized in
  let numeric := parseInt16 chunk in
  {| Rgb.r := Z.land (Z.shiftr (ToInt32 numeric) 16) 255;
     Rgb.g := Z.land (Z.shiftr (ToInt32 numeric) 8) 255;
     Rgb.b := Z.land (ToInt32 numeric) 255 |}.

(** The digit of radix 16 that writes [d], in lower case, and the two
    digits that write a byte. *)
Definition hexChar (d : Z) : ascii :=
  ascii_of_N (Z.to_N (if (d <? 10)%Z then d + 48 else d + 87)%Z).

Definition toHex2 (byte : Z) : String.string :=
  String.String (hexChar (byte / 16))
    (String.String (hexChar (byte mod 16)) String.EmptyString).

(** ** [fitLines] *)

(** A string in a condition: the empty string is false. *)
Definition truthy (s : String.string) : bool :=
  match s with
  | String.EmptyString => false
  | String.String _ _ => true
  end.

(** [text.split(" ")]: never empty, the empty string gives one empty
    word. *)
Fixpoint splitSpaces (text : String.string) : list String.string :=
  match text with
  | String.EmptyString => [String.EmptyString]
  | String.String c rest =>
      if Ascii.eqb c " "%char then String.EmptyString :: splitSpaces rest
      else
        match splitSpaces rest with
        | word :: words => String.String c word :: words
        | [] => [String.String c String.EmptyString]
        end
  end.

(** The body of the [forEach]: the lines so far and the line being filled,
    before and after one word.  [measureText next] stands for
    [ctx.measureText(next).width]. *)
Definition fitWord (measureText : String.string -> Q) (maxWidth : Q)
    (state : list String.string * String.string) (word : String.string)
  : list String.string * String.string :=
  let '(lines, current) := state in
  let next :=
    if truthy current
    then String.append current (String.String " "%char word)
    else word in
  if gtb (measureText next) maxWidth
  then ((if truthy current then lines ++ [current] else lines), word)
  else (lines, next).

Definition fitLines (measureText : String.string -> Q) (text : String.string)
    (maxWidth : Q) : list String.string :=
  let '(lines, current) :=
    fold_left (fitWord measureText maxWidth) (splitSpaces text)
      ([], String.EmptyString) in
  firstn 2 (if truthy current then lines ++ [current] else lines).

(** Whether a string holds a space. *)
Fixpoint hasSpace (text : String.string) : bool :=
  match text with
  | String.EmptyString => false
  | String.String c rest => Ascii.eqb c " "%char || hasSpace rest
  end.

(** A sample measure: ten units a character. *)
Definition tenPerChar (s : String.string) : Q :=
  inject_Z (Z.of_nat (String.length s)) * 10.

(** ** Interaction handlers *)

(** The globals the scroll and pointer listeners and [drawWaves] write. *)
Record Interaction := {
  waveBoost : Q;
  lastScrollY : Q;
  pointerX : Q;
  pointerY : Q
}.

(** What the page starts with, [lastScrollY] being [window.scrollY] at
    load. *)
Definition initialInteraction (scrollY : Q) : Interaction :=
  {| waveBoost := 0; lastScrollY := scrollY; pointerX := 0; pointerY := 0 |}.

(** The events that reach these globals: a scroll to [window.scrollY], a
    pointer move at a client position in a window of a given size, the
    pointer leaving, and a call of [drawWaves] with or without the canvas
    context. *)
Inductive InteractionEvent :=
| Scroll (scrollY : Q)
| PointerMove (clientX clientY innerWidth innerHeight : Q)
| PointerLeave
| DrawWaves (waveCtx : bool).

Definition interact (e : InteractionEvent) (i : Interaction) : Interaction :=
  match e with
  | Scroll now =>
      {| waveBoost :=
           Math_min 48 (waveBoost i + Qabs (now - lastScrollY i) * 0.14);
         lastScrollY := now;
         pointerX := pointerX i; pointerY := pointerY i |}
  | PointerMove clientX clientY innerWidth innerHeight =>
      {| waveBoost := waveBoost i; lastScrollY := lastScrollY i;
         pointerX := clientX / innerWidth - 0.5;
         pointerY := clientY / innerHeight - 0.5 |}
  | PointerLeave =>
      {| waveBoost := waveBoost i; lastScrollY := lastScrollY i;
         pointerX := 0; pointerY := 0 |}
  | DrawWaves waveCtx =>
      if waveCtx then
        {| waveBoost := waveBoost i * 0.93; lastScrollY := lastScrollY i;
           pointerX := pointerX i; pointerY := pointerY i |}
      else i
  end.

Definition interactAll (es : list InteractionEvent) (i : Interaction)
  : Interaction :=
  fold_left (fun i e => interact e i) es i.

(** A pointer event inside a window that has a size. *)
Definition insideWindow (e : InteractionEvent) : Prop :=
  match e with
  | PointerMove clientX clientY innerWidth innerHeight =>
      0 < innerWidth /\ 0 < innerHeight
      /\ 0 <= clientX <= innerWidth /\ 0 <= clientY <= innerHeight
  | _ => True
  end.

(** ** [resizeWaveCanvas] and the strokes of [drawWaves] *)

(** The size of the bitmap of [waveCanvas], its size on the page and the
    scale of the transform of its context. *)
Record WaveCanvas := {
  canvasWidth : Z;
  canvasHeight : Z;
  styleWidth : Q;
  styleHeight : Q;
  transformScale : Q
}.

(** [window.devicePixelRatio || 1], the ratio being [None] when the window
    has none: 0 is false as well. *)
Definition orOne (devicePixelRatio : option Q) : Q :=
  match devicePixelRatio with
  | None => 1
  | Some ratio => if Qeq_bool ratio 0 then 1 else ratio
  end.

Definition resizeWaveCanvas (waveCtx : bool) (devicePixelRatio : option Q)
    (innerWidth innerHeight : Q) (canvas : WaveCanvas) : WaveCanvas :=
  if waveCtx then
    let ratio := Math_max (orOne devicePixelRatio) 1 in
    {| canvasWidth := Math_floor (innerWidth * ratio);
       canvasHeight := Math_floor (innerHeight * ratio);
       styleWidth := innerWidth;
       styleHeight := innerHeight;
       transformScale := ratio |}
  else canvas.

(** A canvas as HTML creates it, 300 by 150. *)
Definition defaultCanvas : WaveCanvas :=
  {| canvasWidth := 300; canvasHeight := 150; styleWidth := 300;
     styleHeight := 150; transformScale := 1 |}.



(** ** [detectActiveScene] *)

(** What [getBoundingClientRect] gives for a scene. *)
Record SceneRect := { rectTop : Q; rectHeight : Q }.

Definition sceneDistance (anchor : Q) (rect : SceneRect) : Q :=
  let center := rectTop rect + rectHeight rect / 2 in
  Qabs (center - anchor).

(** [distance < bestDistance], the best distance being [None] while it is
    [Number.POSITIVE_INFINITY]. *)
Definition closer (distance : Q) (bestDistance : option Q) : bool :=
  match bestDistance with
  | None => true
  | Some best => gtb best distance
  end.

(** The [forEach] over the scenes from index [index] on. *)
Fixpoint nearestFrom (anchor : Q) (rects : list SceneRect) (index : nat)
    (bestIndex : nat) (bestDistance : option Q) : nat * option Q :=
  match rects with
  | [] => (bestIndex, bestDistance)
  | rect :: rest =>
      let distance := sceneDistance anchor rect in
      if closer distance bestDistance
      then nearestFrom anchor rest (S index) index (Some distance)
      else nearestFrom anchor rest (S index) bestIndex bestDistance
  end.

Definition nearestScene (innerHeight : Q) (rects : list SceneRect) : nat :=
  fst (nearestFrom (innerHeight * 0.42) rects 0 0 None).

(** [detectActiveScene]: the index it passes to [setActiveScene], [None]
    when it does not call it. *)
Definition detectActiveScene (innerHeight : Q) (rects : list SceneRect)
    (activeIndex : nat) : option nat :=
  let bestIndex := nearestScene innerHeight rects in
  if (bestIndex =? activeIndex)%nat then None else Some bestIndex.

(** [activeIndex] after [setActiveScene(index)] on a page of [scenes]
    scenes: the call returns at once when there is no scene at [index]. *)
Definition setActiveIndex (scenes : nat) (index : nat) (activeIndex : nat)
  : nat :=
  if (index <? scenes)%nat then index else activeIndex.

(** [activeIndex] after [detectActiveScene]. *)
Definition activeIndexAfterDetect (innerHeight : Q) (rects : list SceneRect)
    (activeIndex : nat) : nat :=
  match detectActiveScene innerHeight rects activeIndex with
  | None => activeIndex
  | Some index => setActiveIndex (length rects) index activeIndex
  end.

(** The loop's invariant: nothing seen and no best yet, or the best is the
    first of the nearest scenes seen. *)
Definition nearestAmong (anchor : Q) (seen : list SceneRect)
    (bestIndex : nat) (bestDistance : option Q) : Prop :=
  match bestDistance with
  | None => seen = []
  | Some best =>
      (bestIndex < length seen)%nat
      /\ nth_error (map (sceneDistance anchor) seen) bestIndex = Some best
      /\ Forall (fun d => best <= d) (map (sceneDistance anchor) seen)
      /\ Forall (fun d => best < d)
           (firstn bestIndex (map (sceneDistance anchor) seen))
  end.

(** ** [ensureAudioEngine] *)

(** What the call leaves: the host globals, the value the promise resolves
    to, and the status text when it sets one. *)
Record EngineResult := {
  engineHost : Host;
  engineReady : bool;
  engineStatus : option String.string
}.

(** [ensureAudioEngine], on the globals the pipeline reads.  [newContext]
    is the context [new Context()] builds, [None] when the window has
    neither [AudioContext] nor [webkitAudioContext]; [newAnalyser] is the
    node [createAnalyser] returns.  With [fftSize = 1024] the analyser has
    512 bins, and a new [Uint8Array] holds zeros.  The Web Audio calls are
    taken to succeed; the gain and source nodes and the resumption of a
    suspended context touch none of these globals.  [engineStatus] is the
    text the call passes to [setAudioStatus]. *)
Definition ensureAudioEngine (newContext : option AudioContext)
    (newAnalyser : AnalyserNode) (h : Host) : EngineResult :=
  match audioElement h with
  | None =>
      {| engineHost := h; engineReady := false; engineStatus := None |}
  | Some _ =>
      match audioContext h with
      | Some _ =>
          {| engineHost := h; engineReady := true; engineStatus := None |}
      | None =>
          match newContext with
          | None =>
              {| engineHost := h; engineReady := false;
                 engineStatus :=
                   Some "Web Audio API is not supported in this browser."%string |}
          | Some context =>
              {| engineHost :=
                   {| analyserNode := Some newAnalyser;
                      frequencyData := Some (repeat 0%Z 512);
                      audioContext := Some context;
                      audioElement := audioElement h;
                      audioMeterFill := audioMeterFill h |};
                 engineReady := true; engineStatus := None |}
          end
      end
  end.

(** * Properties *)

(** ** Comparisons and clamping *)

(** Decide every comparison the goal branches on, innermost first, so that
    the cases are left to linear arithmetic. *)
Ltac no_compare x :=
  lazymatch x with
  | context [Qlt_le_dec _ _] => fail
  | _ => idtac
  end.

Ltac case_compare :=
  repeat match goal with
         | |- context [Qlt_le_dec ?a ?b] =>
             no_compare a; no_compare b; destruct (Qlt_le_dec a b)
         end.

(** The three ways a call can go: live with a context, live without one
    (it throws), and without a live source. *)
Tactic Notation "host_cases" constr(h) "as" ident(node) ident(buf)
    ident(ctx) ident(A) ident(C) :=
  destruct (audioSource h) as [[node buf] |] eqn:A;
  [destruct (audioContext h) as [ctx |] eqn:C |].

Lemma gtb_true (a b : Q) : gtb a b = true <-> b < a.
Proof.
  unfold gtb. destruct (Qlt_le_dec b a) as [H | H]; split; intro K;
    try reflexivity; try assumption; try discriminate.
  exfalso. apply (Qle_not_lt _ _ H K).
Qed.

Lemma gtb_false (a b : Q) : gtb a b = false <-> a <= b.
Proof.
  unfold gtb. destruct (Qlt_le_dec b a) as [H | H]; split; intro K;
    try reflexivity; try assumption; try discriminate.
  exfalso. apply (Qle_not_lt _ _ K H).
Qed.


Lemma clampMeter_range (x : Q) : 0.03 <= clampMeter x /\ clampMeter x <= 1.
Proof.
  unfold clampMeter, Math_max, Math_min. case_compare; lra.
Qed.

(** ** The shape of one call *)

Lemma update_unavailable (h : Host) (t : Q) (s : State) :
  audioSource h = None ->
  updateAudioReactive h t s
  = Return
      {| audioLevel := audioLevel s * 0.92; audioBass := audioBass s * 0.9;
         beatPulse := beatPulse s * 0.9; beatGateUntil := beatGateUntil s;
         beatHistorySum := beatHistorySum s; beatHistory := beatHistory s |}
      (setAudioMeter (audioMeterFill h)
         (audioLevel s * 0.92 * 1.15 + beatPulse s * 0.9 * 0.35)).
Proof. intro H. unfold updateAudioReactive. rewrite H. reflexivity. Qed.

Lemma update_active (h : Host) (t : Q) (s : State) node buf ctx :
  audioSource h = Some (node, buf) ->
  audioContext h = Some ctx ->
  updateAudioReactive h t s
  = analyse h (sampleRate ctx) (getByteFrequencyData node buf) t
      (set_beatPulse (beatPulse s * 0.9) s).
Proof.
  intros H K. unfold updateAudioReactive. rewrite H, K. reflexivity.
Qed.

Lemma update_throws (h : Host) (t : Q) (s : State) node buf :
  audioSource h = Some (node, buf) ->
  audioContext h = None ->
  updateAudioReactive h t s = Throw (set_beatPulse (beatPulse s * 0.9) s).
Proof.
  intros H K. unfold updateAudioReactive. rewrite H, K. reflexivity.
Qed.

Lemma audioSource_analyser (h : Host) node buf :
  audioSource h = Some (node, buf) -> analyserNode h = Some node.
Proof.
  unfold audioSource.
  destruct (analyserNode h), (frequencyData h), (audioElement h) as [el |];
    try discriminate.
  destruct (paused el); [discriminate |]. intro E. now inversion E.
Qed.

Lemma coherent_context (h : Host) node buf :
  engineCoherent h = true -> audioSource h = Some (node, buf) ->
  exists ctx, audioContext h = Some ctx.
Proof.
  intros C H. apply audioSource_analyser in H. unfold engineCoherent in C.
  rewrite H in C. destruct (audioContext h) as [ctx |];
    [now exists ctx | discriminate].
Qed.

(** Fields the history push and the detector leave alone. *)

Lemma pushHistory_frame (s : State) :
  audioLevel (pushHistory s) = audioLevel s
  /\ audioBass (pushHistory s) = audioBass s
  /\ beatPulse (pushHistory s) = beatPulse s
  /\ beatGateUntil (pushHistory s) = beatGateUntil s.
Proof.
  unfold pushHistory.
  destruct (42 <? length (beatHistory s ++ [audioBass s]))%nat;
    [destruct (beatHistory s ++ [audioBass s]) |]; simpl; auto.
Qed.

Lemma detectBeat_frame (t : Q) (s : State) :
  audioLevel (detectBeat t s) = audioLevel s
  /\ audioBass (detectBeat t s) = audioBass s
  /\ beatHistorySum (detectBeat t s) = beatHistorySum s
  /\ beatHistory (detectBeat t s) = beatHistory s.
Proof. unfold detectBeat. destruct (beatDetected t s); simpl; auto. Qed.

Lemma detectBeat_fired (t : Q) (s : State) :
  beatDetected t s = true ->
  beatPulse (detectBeat t s) = 1
  /\ beatGateUntil (detectBeat t s) = t + 0.17.
Proof. intro H. unfold detectBeat. rewrite H. simpl. auto. Qed.

Lemma detectBeat_quiet (t : Q) (s : State) :
  beatDetected t s = false ->
  beatPulse (detectBeat t s) = beatPulse s * 0.95
  /\ beatGateUntil (detectBeat t s) = beatGateUntil s.
Proof. intro H. unfold detectBeat. rewrite H. simpl. auto. Qed.

(** ** The beat history *)


(** What a push does while there is room, and what it does on a full
    history. *)
Lemma pushHistory_room (s : State) :
  (length (beatHistory s) < 42)%nat ->
  beatHistory (pushHistory s) = beatHistory s ++ [audioBass s]
  /\ beatHistorySum (pushHistory s) = beatHistorySum s + audioBass s.
Proof.
  intro H. unfold pushHistory.
  replace (42 <? length (beatHistory s ++ [audioBass s]))%nat with false.
  - simpl. auto.
  - symmetry. apply Nat.ltb_ge. rewrite length_app. simpl. lia.
Qed.

Lemma pushHistory_full (s : State) (oldest : Q) (rest : list Q) :
  beatHistory s = oldest :: rest ->
  (42 <= length (beatHistory s))%nat ->
  beatHistory (pushHistory s) = rest ++ [audioBass s]
  /\ beatHistorySum (pushHistory s)
     = beatHistorySum s + audioBass s - oldest.
Proof.
  intros E H. unfold pushHistory.
  replace (42 <? length (beatHistory s ++ [audioBass s]))%nat with true.
  - rewrite E. simpl. auto.
  - symmetry. apply Nat.ltb_lt. rewrite length_app. simpl. lia.
Qed.


Lemma pushHistory_nonempty (s : State) :
  (1 <= length (beatHistory (pushHistory s)))%nat.
Proof.
  unfold pushHistory.
  destruct (42 <? length (beatHistory s ++ [audioBass s]))%nat eqn:E.
  - apply Nat.ltb_lt in E.
    destruct (beatHistory s ++ [audioBass s]); simpl in *; lia.
  - simpl. rewrite length_app. simpl. lia.
Qed.




(** ** The band-energy extractor *)

Lemma skipn_succ_tl (k : nat) : forall l : list Z,
  skipn (S k) l = tl (skipn k l).
Proof.
  induction k as [| k IH]; intros [| x l]; try reflexivity.
  change (skipn (S (S k)) (x :: l)) with (skipn (S k) l).
  change (skipn (S k) (x :: l)) with (skipn k l). apply IH.
Qed.

Lemma nth_hd_skipn (k : nat) : forall l : list Z,
  nth k l 0%Z = hd 0%Z (skipn k l).
Proof.
  induction k as [| k IH]; intros [| x l]; try reflexivity.
  simpl. apply IH.
Qed.

(** The loop adds up exactly the bins of the slice. *)
Lemma sumFrom_slice (data : list Z) (n : nat) : forall (i acc : Z),
  (0 <= i)%Z ->
  sumFrom data i n acc
  = (acc + sumZ (firstn n (skipn (Z.to_nat i) data)))%Z.
Proof.
  induction n as [| n IH]; intros i acc Hi; simpl.
  - lia.
  - rewrite IH by lia.
    replace (Z.to_nat (i + 1)) with (S (Z.to_nat i)) by lia.
    rewrite skipn_succ_tl, nth_hd_skipn.
    destruct (skipn (Z.to_nat i) data) as [| x r]; simpl.
    + rewrite firstn_nil. simpl. lia.
    + lia.
Qed.

Lemma sumBins_slice (data : list Z) (a b : Z) :
  (0 <= a)%Z -> sumBins data a b = sumZ (slice data a b).
Proof.
  intro H. unfold sumBins, slice. rewrite sumFrom_slice by exact H. lia.
Qed.

Lemma sumZ_bytes (l : list Z) :
  Forall (fun b => (0 <= b <= 255)%Z) l ->
  (0 <= sumZ l <= 255 * Z.of_nat (length l))%Z.
Proof.
  induction 1 as [| x l Hx _ IH]; simpl; lia.
Qed.

Lemma bytes_firstn (n : nat) : forall l : list Z,
  Forall (fun x => (0 <= x <= 255)%Z) l ->
  Forall (fun x => (0 <= x <= 255)%Z) (firstn n l).
Proof.
  induction n as [| n IH]; intros l H; [constructor |].
  destruct H as [| x l Hx Hl]; simpl; constructor; auto.
Qed.

Lemma bytes_skipn (n : nat) : forall l : list Z,
  Forall (fun x => (0 <= x <= 255)%Z) l ->
  Forall (fun x => (0 <= x <= 255)%Z) (skipn n l).
Proof.
  induction n as [| n IH]; intros l H; [exact H |].
  destruct H as [| x l Hx Hl]; simpl; [constructor | auto].
Qed.

Lemma slice_bytes (data : list Z) (a b : Z) :
  Forall (fun x => (0 <= x <= 255)%Z) data ->
  Forall (fun x => (0 <= x <= 255)%Z) (slice data a b).
Proof. intro H. unfold slice. now apply bytes_firstn, bytes_skipn. Qed.

Lemma slice_length (data : list Z) (a b : Z) :
  (Z.of_nat (length (slice data a b)) <= Z.max 0 (b - a + 1))%Z.
Proof.
  unfold slice. rewrite length_firstn. lia.
Qed.

Lemma inject_Z_pos (m : Z) : (1 <= m)%Z -> 0 < inject_Z m.
Proof.
  intro H. change 0 with (inject_Z 0). rewrite <- Zlt_Qlt. lia.
Qed.

Lemma hzPerBin_pos (rate : Q) (data : list Z) :
  validSnapshot rate data -> 0 < hzPerBin rate data.
Proof.
  intros (Hr & Hn & _). unfold hzPerBin.
  apply Qlt_shift_div_l; [apply inject_Z_pos; lia | lra].
Qed.



Lemma floor_cutoff_nonneg (hz c : Q) :
  0 < hz -> 0 <= c -> (0 <= Qfloor (c / hz))%Z.
Proof.
  intros Hh Hc. change 0%Z with (Qfloor (inject_Z 0)).
  apply Qfloor_resp_le. apply Qle_shift_div_l; [exact Hh |].
  change (inject_Z 0) with 0. lra.
Qed.

(** An average of bytes over at least as many places as there are bytes,
    scaled by 255, is a fraction. *)
Lemma average_unit (l : list Z) (m : Z) :
  Forall (fun b => (0 <= b <= 255)%Z) l ->
  (Z.of_nat (length l) <= m)%Z -> (1 <= m)%Z ->
  unit_interval (inject_Z (sumZ l) / (inject_Z m * 255)).
Proof.
  intros Hb Hl Hm. pose proof (sumZ_bytes l Hb) as [H0 H1].
  assert (Hpos : 0 < inject_Z m * 255).
  { pose proof (inject_Z_pos m Hm). nra. }
  assert (Q0 : 0 <= inject_Z (sumZ l)).
  { change 0 with (inject_Z 0). rewrite <- Zle_Qle. exact H0. }
  assert (Q1 : inject_Z (sumZ l) <= inject_Z m * 255).
  { change 255 with (inject_Z 255). rewrite <- inject_Z_mult, <- Zle_Qle.
    nia. }
  split.
  - apply Qle_shift_div_l; [exact Hpos | lra].
  - apply Qle_shift_div_r; [exact Hpos | lra].
Qed.

Lemma bassStart_floor (rate : Q) (data : list Z) :
  validSnapshot rate data ->
  bassStart rate data = Qfloor (30 / hzPerBin rate data)
  /\ (0 <= bassStart rate data)%Z.
Proof.
  intro V. unfold bassStart, Math_floor.
  pose proof (floor_cutoff_nonneg (hzPerBin rate data) 30
                (hzPerBin_pos rate data V)) as H.
  assert (H30 : 0 <= 30) by lra. specialize (H H30). lia.
Qed.


Lemma bodyEnd_range (rate : Q) (data : list Z) :
  validSnapshot rate data ->
  (0 <= bodyEnd rate data <= Z.of_nat (length data) - 1)%Z.
Proof.
  intro V. unfold bodyEnd, Math_floor.
  pose proof (floor_cutoff_nonneg (hzPerBin rate data) 1800
                (hzPerBin_pos rate data V)) as H.
  assert (H1800 : 0 <= 1800) by lra. specialize (H H1800).
  destruct V as (_ & Hn & _). lia.
Qed.







Lemma bassValue_slice (rate : Q) (data : list Z) :
  validSnapshot rate data ->
  bassValue rate data
  = inject_Z (sumZ (slice data (bassStart rate data) (bassEnd rate data)))
    / (inject_Z (Z.max 1 (bassEnd rate data - bassStart rate data + 1))
       * 255).
Proof.
  intro V. unfold bassValue.
  rewrite sumBins_slice by apply (bassStart_floor rate data V).
  reflexivity.
Qed.

Lemma bodyValue_slice (rate : Q) (data : list Z) :
  bodyValue rate data
  = inject_Z (sumZ (slice data 0 (bodyEnd rate data)))
    / (inject_Z (Z.max 1 (bodyEnd rate data + 1)) * 255).
Proof.
  unfold bodyValue. rewrite sumBins_slice by lia. reflexivity.
Qed.

Lemma bassValue_unit (rate : Q) (data : list Z) :
  validSnapshot rate data -> unit_interval (bassValue rate data).
Proof.
  intro V. rewrite (bassValue_slice rate data V).
  apply average_unit; [apply slice_bytes, V | | lia].
  pose proof (slice_length data (bassStart rate data) (bassEnd rate data)).
  lia.
Qed.

Lemma bodyValue_unit (rate : Q) (data : list Z) :
  validSnapshot rate data -> unit_interval (bodyValue rate data).
Proof.
  intro V. rewrite bodyValue_slice.
  apply average_unit; [apply slice_bytes, V | | lia].
  pose proof (slice_length data 0 (bodyEnd rate data)).
  pose proof (bodyEnd_range rate data V). lia.
Qed.


(** ** One call on a live source *)

Lemma smooth_frame (rate : Q) (data : list Z) (s : State) :
  beatPulse (smooth rate data s) = beatPulse s
  /\ beatGateUntil (smooth rate data s) = beatGateUntil s
  /\ beatHistorySum (smooth rate data s) = beatHistorySum s
  /\ beatHistory (smooth rate data s) = beatHistory s.
Proof. unfold smooth. simpl. auto. Qed.

Lemma averageBass_pushed (s : State) :
  averageBass (pushHistory s)
  = beatHistorySum (pushHistory s)
    / inject_Z (Z.of_nat (length (beatHistory (pushHistory s)))).
Proof.
  unfold averageBass. pose proof (pushHistory_nonempty s) as H.
  apply Nat.ltb_lt in H. rewrite H. reflexivity.
Qed.

Lemma beforeDetector_frame (rate : Q) (data : list Z) (s : State) :
  beatPulse (beforeDetector rate data s) = beatPulse s * 0.9
  /\ beatGateUntil (beforeDetector rate data s) = beatGateUntil s.
Proof.
  unfold beforeDetector.
  destruct (pushHistory_frame
              (smooth rate data (set_beatPulse (beatPulse s * 0.9) s)))
    as (_ & _ & -> & ->).
  unfold smooth. simpl. auto.
Qed.

Lemma update_live (h : Host) (t : Q) (s : State) node buf ctx :
  audioSource h = Some (node, buf) ->
  audioContext h = Some ctx ->
  let p := beforeDetector (sampleRate ctx) (getByteFrequencyData node buf) s in
  updateAudioReactive h t s
  = Return (detectBeat t p)
      (setAudioMeter (audioMeterFill h)
         (audioLevel (detectBeat t p) * 1.4 + beatPulse (detectBeat t p) * 0.5))
  /\ beatFired h t s = beatDetected t p.
Proof.
  intros A C p. split.
  - rewrite (update_active h t s node buf ctx A C). reflexivity.
  - unfold beatFired. rewrite A, C. reflexivity.
Qed.

Lemma beatFired_unavailable (h : Host) (t : Q) (s : State) :
  audioSource h = None -> beatFired h t s = false.
Proof. intro A. unfold beatFired. rewrite A. reflexivity. Qed.

Lemma beatFired_throws (h : Host) (t : Q) (s : State) :
  audioContext h = None -> beatFired h t s = false.
Proof.
  intro C. unfold beatFired. rewrite C.
  destruct (audioSource h) as [[node buf] |]; reflexivity.
Qed.

(** What one call does to the pulse and the gate, whatever the host. *)
Lemma update_pulse_gate (h : Host) (t : Q) (s : State) :
  let s' := stateOf (updateAudioReactive h t s) in
  (beatFired h t s = true /\ beatGateUntil s < t
   /\ beatPulse s' = 1 /\ beatGateUntil s' = t + 0.17)
  \/ (beatFired h t s = false /\ beatGateUntil s' = beatGateUntil s
      /\ (beatPulse s' = beatPulse s * 0.9
          \/ beatPulse s' = beatPulse s * 0.9 * 0.95)).
Proof.
  host_cases h as node buf ctx A C.
  - destruct (update_live h t s node buf ctx A C) as [-> ->]. simpl.
    destruct (beforeDetector_frame (sampleRate ctx)
                (getByteFrequencyData node buf) s) as [P G].
    destruct (beatDetected t _) eqn:D.
    + left. destruct (detectBeat_fired t _ D) as [-> ->].
      unfold beatDetected in D. apply andb_true_iff in D as [_ D].
      apply gtb_true in D. rewrite G in D. auto.
    + right. destruct (detectBeat_quiet t _ D) as [-> ->].
      rewrite P, G. auto.
  - right. rewrite (update_throws h t s node buf A C).
    rewrite (beatFired_throws h t s C). simpl. auto.
  - right. rewrite (update_unavailable h t s A).
    rewrite (beatFired_unavailable h t s A). simpl. auto.
Qed.

(** ** Runs of frames *)






(** ** Geometric decay *)

Lemma inject_nat_succ (n : nat) :
  inject_Z (Z.of_nat (S n)) == inject_Z (Z.of_nat n) + 1.
Proof.
  rewrite Nat2Z.inj_succ. unfold Z.succ. rewrite inject_Z_plus. reflexivity.
Qed.

Lemma inject_nat_nonneg (n : nat) : 0 <= inject_Z (Z.of_nat n).
Proof. change 0 with (inject_Z 0). rewrite <- Zle_Qle. lia. Qed.

Section Geometric.

Variable q : Q.
Hypothesis q_nonneg : 0 <= q.
Hypothesis q_below_one : q < 1.

Lemma qpow_nonneg (n : nat) : 0 <= qpow q n.
Proof using q_nonneg. induction n as [| n IH]; simpl; [lra | nra]. Qed.

Lemma qpow_antitone (m n : nat) : (m <= n)%nat -> qpow q n <= qpow q m.
Proof using q_nonneg q_below_one.
  intro L. induction L as [| n L IH]; [lra |].
  simpl. pose proof (qpow_nonneg n). nra.
Qed.

(** Bernoulli's inequality, in the form that needs no division. *)
Lemma qpow_bernoulli (n : nat) :
  qpow q n * (1 + inject_Z (Z.of_nat n) * (1 - q)) <= 1.
Proof using q_nonneg q_below_one.
  induction n as [| n IH].
  - simpl. change (inject_Z 0) with 0. lra.
  - rewrite inject_nat_succ.
    pose proof (inject_nat_nonneg n) as Hn.
    pose proof (qpow_nonneg n) as Hp.
    set (k := inject_Z (Z.of_nat n)) in *. set (p := qpow q n) in *.
    change (qpow q (S n)) with (q * p).
    assert (D : 0 <= (k + 1) * ((1 - q) * (1 - q))).
    { apply Qmult_le_0_compat; [lra | nra]. }
    assert (E : q * (1 + (k + 1) * (1 - q)) <= 1 + k * (1 - q)) by nra.
    assert (M : p * (q * (1 + (k + 1) * (1 - q)))
                <= p * (1 + k * (1 - q))).
    { rewrite (Qmult_comm p (q * _)), (Qmult_comm p (1 + _)).
      apply Qmult_le_compat_r; assumption. }
    lra.
Qed.

(** A geometric decay gets below every positive bound, and stays
    there. *)
Lemma geometric_decay (x eps : Q) :
  0 <= x -> 0 < eps ->
  exists N : nat, forall n : nat, (N <= n)%nat -> x * qpow q n < eps.
Proof using q_nonneg q_below_one.
  intros Hx He.
  assert (Hd : 0 < eps * (1 - q)) by nra.
  exists (Z.to_nat (Qfloor (x / (eps * (1 - q))) + 1)). intros n Hn.
  pose proof (Qlt_floor (x / (eps * (1 - q)))) as F.
  assert (Fn : inject_Z (Qfloor (x / (eps * (1 - q))) + 1)
               <= inject_Z (Z.of_nat n)).
  { rewrite <- Zle_Qle. lia. }
  pose proof (qpow_bernoulli n) as B.
  pose proof (qpow_nonneg n) as Hp.
  set (k := inject_Z (Z.of_nat n)) in *.
  assert (K : x / (eps * (1 - q)) < k) by lra.
  assert (X : x < k * (eps * (1 - q))).
  { apply (Qmult_lt_compat_r _ _ (eps * (1 - q)) Hd) in K.
    rewrite (Qmult_comm (x / _)), Qmult_div_r in K; [exact K | lra]. }
  set (p := qpow q n) in *.
  destruct (Qlt_le_dec 0 p) as [Pp | Pz].
  - assert (S1 : x * p < (eps * (1 + k * (1 - q))) * p).
    { apply Qmult_lt_compat_r; [exact Pp | lra]. }
    assert (S2 : eps * (p * (1 + k * (1 - q))) <= eps * 1).
    { rewrite (Qmult_comm eps (p * _)), (Qmult_comm eps 1).
      apply Qmult_le_compat_r; [exact B | lra]. }
    lra.
  - assert (Z0 : p == 0) by lra. rewrite Z0. lra.
Qed.

End Geometric.

Lemma qpow_09_44 : qpow 0.9 44 < 0.01.
Proof. vm_compute. reflexivity. Qed.

(** ** The pulse *)

Lemma update_pulse_unit (h : Host) (t : Q) (s : State) :
  unit_interval (beatPulse s) ->
  unit_interval (beatPulse (stateOf (updateAudioReactive h t s))).
Proof.
  intros [H0 H1]. unfold unit_interval.
  destruct (update_pulse_gate h t s)
    as [(_ & _ & -> & _) | (_ & _ & [-> | ->])]; lra.
Qed.

Lemma run_pulse_unit (fs : list Frame) :
  forall s, unit_interval (beatPulse s) ->
            unit_interval (beatPulse (run fs s)).
Proof.
  induction fs as [| f fs IH]; intros s H; simpl; [exact H |].
  pose proof (update_pulse_unit (host f) (seconds f) s H) as K.
  unfold frame. destruct (updateAudioReactive (host f) (seconds f) s);
    simpl in K; [apply IH |]; exact K.
Qed.

Lemma coherent_no_throw (h : Host) (t : Q) (s : State) :
  engineCoherent h = true ->
  exists s' fill, updateAudioReactive h t s = Return s' fill.
Proof.
  intro C. destruct (audioSource h) as [[node buf] |] eqn:A.
  - destruct (coherent_context h node buf C A) as [ctx K].
    destruct (update_live h t s node buf ctx A K) as [E _].
    rewrite E. eauto.
  - rewrite (update_unavailable h t s A). eauto.
Qed.

(** Without a beat, each frame multiplies the pulse by 0.9 at least. *)
Lemma run_quiet_pulse (fs : list Frame) :
  forall s,
    0 <= beatPulse s ->
    Forall (fun f => engineCoherent (host f) = true) fs ->
    beats fs s = [] ->
    0 <= beatPulse (run fs s)
    /\ beatPulse (run fs s) <= beatPulse s * qpow 0.9 (length fs).
Proof.
  induction fs as [| f fs IH]; intros s H0 C B; simpl in *; [lra |].
  inversion C as [| f' fs' Cf Cfs]; subst.
  pose proof (update_pulse_gate (host f) (seconds f) s) as U.
  destruct (coherent_no_throw (host f) (seconds f) s Cf) as (s' & fill & E).
  unfold frame in *. rewrite E in *. simpl in U.
  destruct U as [(F & _) | (F & _ & P)]; rewrite F in B; [discriminate |].
  assert (H0' : 0 <= beatPulse s') by (destruct P as [-> | ->]; lra).
  destruct (IH s' H0' Cfs B) as [L U]. split; [exact L |].
  assert (Q9 : (0:Q) <= 0.9) by lra.
  pose proof (qpow_nonneg 0.9 Q9 (length fs)) as N.
  destruct P as [P | P]; rewrite P in U; nra.
Qed.


(** ** Frames without a live source *)

Lemma run_unavailable (fs : list Frame) :
  forall s,
    Forall (fun f => audioSource (host f) = None) fs ->
    audioLevel (run fs s) == audioLevel s * qpow 0.92 (length fs)
    /\ audioBass (run fs s) == audioBass s * qpow 0.9 (length fs)
    /\ beatPulse (run fs s) == beatPulse s * qpow 0.9 (length fs)
    /\ beatGateUntil (run fs s) = beatGateUntil s
    /\ beatHistorySum (run fs s) = beatHistorySum s
    /\ beatHistory (run fs s) = beatHistory s.
Proof.
  induction fs as [| f fs IH]; intros s A; simpl.
  - repeat split; try reflexivity; lra.
  - inversion A as [| f' fs' Af Afs]; subst. unfold frame.
    rewrite (update_unavailable (host f) (seconds f) s Af).
    match goal with
    | |- context [run fs ?s1] =>
        destruct (IH s1 Afs) as (L & B & P & G & S & H)
    end.
    simpl in *. rewrite L, B, P, G, S, H.
    repeat split; try reflexivity; lra.
Qed.


(** ** The smoothing filter *)

Lemma bytesb_sound (data : list Z) :
  bytesb data = true -> Forall (fun b => (0 <= b <= 255)%Z) data.
Proof.
  unfold bytesb. rewrite forallb_forall, Forall_forall.
  intros H b Hb. specialize (H b Hb). lia.
Qed.

Lemma validHost_normalized (h : Host) : validHost h -> normalizedHost h.
Proof.
  unfold validHost, normalizedHost.
  destruct (audioSource h) as [[node buf] |]; [| auto].
  destruct (audioContext h) as [ctx |]; [| auto].
  intro V. split; [apply bassValue_unit | apply bodyValue_unit]; exact V.
Qed.

Lemma update_smoothing_unit (h : Host) (t : Q) (s : State) :
  unit_interval (audioLevel s) -> unit_interval (audioBass s) ->
  normalizedHost h ->
  unit_interval (audioLevel (stateOf (updateAudioReactive h t s)))
  /\ unit_interval (audioBass (stateOf (updateAudioReactive h t s))).
Proof.
  intros [L0 L1] [B0 B1] V. unfold normalizedHost in V.
  unfold unit_interval in *.
  host_cases h as node buf ctx A C.
  - destruct (update_live h t s node buf ctx A C) as [-> _]. simpl.
    destruct (detectBeat_frame t
                (beforeDetector (sampleRate ctx)
                   (getByteFrequencyData node buf) s)) as (-> & -> & _).
    unfold beforeDetector.
    destruct (pushHistory_frame
                (smooth (sampleRate ctx) (getByteFrequencyData node buf)
                   (set_beatPulse (beatPulse s * 0.9) s)))
      as (-> & -> & _).
    destruct V as [[V0 V1] [W0 W1]].
    unfold smooth. simpl. repeat split; lra.
  - rewrite (update_throws h t s node buf A C). simpl.
    repeat split; assumption.
  - rewrite (update_unavailable h t s A). simpl. repeat split; lra.
Qed.

Lemma run_smoothing_unit (fs : list Frame) :
  forall s,
    unit_interval (audioLevel s) -> unit_interval (audioBass s) ->
    Forall (fun f => normalizedHost (host f)) fs ->
    unit_interval (audioLevel (run fs s))
    /\ unit_interval (audioBass (run fs s)).
Proof.
  induction fs as [| f fs IH]; intros s L B V; simpl; [auto |].
  inversion V as [| f' fs' Vf Vfs]; subst.
  destruct (update_smoothing_unit (host f) (seconds f) s L B Vf) as [L' B'].
  unfold frame. destruct (updateAudioReactive (host f) (seconds f) s);
    simpl in L', B'; [apply IH | split]; assumption.
Qed.

Lemma update_smoothing_values (h : Host) (t : Q) (s : State) node buf ctx :
  audioSource h = Some (node, buf) ->
  audioContext h = Some ctx ->
  let data := getByteFrequencyData node buf in
  audioLevel (stateOf (updateAudioReactive h t s))
  = audioLevel s * 0.84 + bodyValue (sampleRate ctx) data * 0.16
  /\ audioBass (stateOf (updateAudioReactive h t s))
     = audioBass s * 0.72 + bassValue (sampleRate ctx) data * 0.28.
Proof.
  intros A C data. destruct (update_live h t s node buf ctx A C) as [-> _].
  simpl.
  destruct (detectBeat_frame t
              (beforeDetector (sampleRate ctx)
                 (getByteFrequencyData node buf) s)) as (-> & -> & _).
  unfold beforeDetector.
  destruct (pushHistory_frame
              (smooth (sampleRate ctx) (getByteFrequencyData node buf)
                 (set_beatPulse (beatPulse s * 0.9) s))) as (-> & -> & _).
  unfold smooth. simpl. auto.
Qed.

(** ** The sample hosts *)

Lemma liveHost_source :
  audioSource liveHost
  = Some ({| byteFrequencyData := bassSpectrum |}, repeat 0%Z 512).
Proof. reflexivity. Qed.

Lemma liveHost_data :
  getByteFrequencyData {| byteFrequencyData := bassSpectrum |}
    (repeat 0%Z 512) = bassSpectrum.
Proof. vm_compute. reflexivity. Qed.

Lemma bassSpectrum_valid : validSnapshot 44100 bassSpectrum.
Proof.
  split; [lra | split].
  - vm_compute. lia.
  - apply bytesb_sound. vm_compute. reflexivity.
Qed.

Lemma liveHost_valid : validHost liveHost.
Proof.
  unfold validHost. rewrite liveHost_source. simpl audioContext. cbv iota beta.
  rewrite liveHost_data. exact bassSpectrum_valid.
Qed.

Lemma framesOn_length (h : Host) (n : nat) :
  forall start, length (framesOn h start n) = n.
Proof. induction n as [| n IH]; intro start; simpl; [| rewrite IH]; auto. Qed.

Lemma framesOn_hosts (P : Host -> Prop) (h : Host) (n : nat) :
  P h -> forall start, Forall (fun f => P (host f)) (framesOn h start n).
Proof.
  intro H. induction n as [| n IH]; intro start; simpl; constructor; auto.
Qed.

(** * The claims *)

(** C1.  On a call with a live source, the detector's threshold is
    [max(0.14, average * 1.32)], the average being the running sum over the
    length of the history as the push left them.  When the smoothed bass is
    above the threshold and the time stamp is past the gate, the pulse
    becomes 1 and the gate [timeSeconds + 0.17]; otherwise the gate stays
    and the pulse is the old one times 0.9 * 0.95 = 0.855. *)
Theorem C1_adaptive_beat_detector_step
    (h : Host) (t : Q) (s : State) node buf ctx :
  audioSource h = Some (node, buf) ->
  audioContext h = Some ctx ->
  exists s' fill,
    updateAudioReactive h t s = Return s' fill
    /\ let average :=
         beatHistorySum s' / inject_Z (Z.of_nat (length (beatHistory s'))) in
       let thr := Math_max 0.14 (average * 1.32) in
       (beatFired h t s = true <-> thr < audioBass s' /\ beatGateUntil s < t)
       /\ (thr < audioBass s' /\ beatGateUntil s < t ->
           beatPulse s' = 1 /\ beatGateUntil s' = t + 0.17)
       /\ (~ (thr < audioBass s' /\ beatGateUntil s < t) ->
           beatPulse s' == beatPulse s * 0.855
           /\ beatGateUntil s' = beatGateUntil s).
Proof.
  intros A C. destruct (update_live h t s node buf ctx A C) as [E F].
  set (p := beforeDetector (sampleRate ctx) (getByteFrequencyData node buf) s)
    in *.
  exists (detectBeat t p), (setAudioMeter (audioMeterFill h)
    (audioLevel (detectBeat t p) * 1.4 + beatPulse (detectBeat t p) * 0.5)).
  split; [exact E |]. cbv zeta.
  destruct (detectBeat_frame t p) as (_ & -> & -> & ->).
  destruct (beforeDetector_frame (sampleRate ctx)
              (getByteFrequencyData node buf) s) as [P G]. fold p in P, G.
  assert (T : Math_max 0.14
                (beatHistorySum p
                 / inject_Z (Z.of_nat (length (beatHistory p))) * 1.32)
              = threshold p).
  { unfold threshold, p, beforeDetector. rewrite averageBass_pushed.
    reflexivity. }
  rewrite T.
  assert (D : beatDetected t p = true
              <-> threshold p < audioBass p /\ beatGateUntil s < t).
  { unfold beatDetected. rewrite andb_true_iff, !gtb_true, G. tauto. }
  rewrite F. split; [exact D |]. split.
  - intro K. apply D in K. apply detectBeat_fired. exact K.
  - intro K. destruct (beatDetected t p) eqn:B.
    + exfalso. apply K, D. reflexivity.
    + destruct (detectBeat_quiet t p B) as [-> ->]. rewrite P, G.
      split; [lra | reflexivity].
Qed.

(** The theorem on the sample page, one second in, right after a beat. *)
Lemma C1_adaptive_beat_detector_step_witness :
  audioSource liveHost
  = Some ({| byteFrequencyData := bassSpectrum |}, repeat 0%Z 512)
  /\ audioContext liveHost = Some {| sampleRate := 44100 |}
  /\ exists s' fill,
       updateAudioReactive liveHost 1 afterBeat = Return s' fill
       /\ (beatFired liveHost 1 afterBeat = true
           <-> Math_max 0.14
                 (beatHistorySum s'
                  / inject_Z (Z.of_nat (length (beatHistory s'))) * 1.32)
               < audioBass s' /\ beatGateUntil afterBeat < 1).
Proof.
  split; [reflexivity | split; [reflexivity |]].
  destruct (C1_adaptive_beat_detector_step liveHost 1 afterBeat
              {| byteFrequencyData := bassSpectrum |} (repeat 0%Z 512)
              {| sampleRate := 44100 |} eq_refl eq_refl)
    as (s' & fill & E & K & _).
  exists s', fill. split; [exact E | exact K].
Defined.






(** C5.  A call with a live source sets the level to
    [level * 0.84 + body * 0.16] and the bass to
    [bass * 0.72 + bassValue * 0.28], the energies being those of the
    snapshot.  With level and bass in [0, 1] at the start and the energies
    of every live snapshot in [0, 1] (as they are for valid snapshots),
    level and bass are in [0, 1] after every frame of a run, live or
    not. *)
Theorem C5_smoothing_filter (fs : list Frame) (s : State) :
  unit_interval (audioLevel s) ->
  unit_interval (audioBass s) ->
  Forall (fun f => normalizedHost (host f)) fs ->
  unit_interval (audioLevel (run fs s))
  /\ unit_interval (audioBass (run fs s))
  /\ forall (h : Host) (t : Q) node buf ctx,
       audioSource h = Some (node, buf) ->
       audioContext h = Some ctx ->
       let data := getByteFrequencyData node buf in
       let s' := stateOf (updateAudioReactive h t s) in
       audioLevel s' = audioLevel s * 0.84 + bodyValue (sampleRate ctx) data * 0.16
       /\ audioBass s' = audioBass s * 0.72 + bassValue (sampleRate ctx) data * 0.28.
Proof.
  intros L B V.
  destruct (run_smoothing_unit fs s L B V) as [L' B'].
  split; [exact L' | split; [exact B' |]].
  intros h t node buf ctx A C. apply (update_smoothing_values h t s _ _ _ A C).
Qed.

(** The theorem on three live frames of the sample page. *)
Lemma C5_smoothing_filter_witness :
  unit_interval (audioLevel afterBeat)
  /\ unit_interval (audioBass afterBeat)
  /\ unit_interval (audioLevel (run (framesOn liveHost 0 3) afterBeat))
  /\ unit_interval (audioBass (run (framesOn liveHost 0 3) afterBeat))
  /\ audioBass (stateOf (updateAudioReactive liveHost 1 afterBeat))
     = 0.5 * 0.72 + bassValue 44100 bassSpectrum * 0.28.
Proof.
  assert (L : unit_interval (audioLevel afterBeat)) by (split; simpl; lra).
  assert (B : unit_interval (audioBass afterBeat)) by (split; simpl; lra).
  destruct (C5_smoothing_filter (framesOn liveHost 0 3) afterBeat L B
              (framesOn_hosts normalizedHost liveHost 3
                 (validHost_normalized liveHost liveHost_valid) 0))
    as (L' & B' & K).
  split; [exact L | split; [exact B | split; [exact L' | split; [exact B' |]]]].
  destruct (K liveHost 1 {| byteFrequencyData := bassSpectrum |}
              (repeat 0%Z 512) {| sampleRate := 44100 |} eq_refl eq_refl)
    as [_ E].
  rewrite liveHost_data in E. exact E.
Defined.

(** C6.  Every call multiplies the pulse by 0.9 first: the pulse it leaves
    is 1 when a beat fires, the old one times 0.9 without a live source (or
    when the call throws), and the old one times 0.9 * 0.95 on a live call
    without a beat.  From a pulse in [0, 1] the pulse stays in [0, 1] over
    any run, and after 44 or more frames without a beat (none of them
    throwing) it is below 0.01. *)
Theorem C6_pulse_decay (fs : list Frame) (s : State) :
  unit_interval (beatPulse s) ->
  Forall (fun f => engineCoherent (host f) = true) fs ->
  (forall (h : Host) (t : Q),
     let s' := stateOf (updateAudioReactive h t s) in
     if beatFired h t s then beatPulse s' = 1
     else match audioSource h, audioContext h with
          | Some _, Some _ => beatPulse s' = beatPulse s * 0.9 * 0.95
          | _, _ => beatPulse s' = beatPulse s * 0.9
          end)
  /\ 0 <= beatPulse (run fs s) <= 1
  /\ (beats fs s = [] -> (44 <= length fs)%nat ->
      beatPulse (run fs s) < 0.01).
Proof.
  intros U C. split; [| split].
  - intros h t s'. subst s'.
    host_cases h as node buf ctx A K.
    + destruct (update_live h t s node buf ctx A K) as [-> ->]. simpl.
      destruct (beforeDetector_frame (sampleRate ctx)
                  (getByteFrequencyData node buf) s) as [P _].
      destruct (beatDetected t _) eqn:D.
      * apply (detectBeat_fired t _ D).
      * destruct (detectBeat_quiet t _ D) as [-> _]. rewrite P.
        reflexivity.
    + rewrite (beatFired_throws h t s K).
      rewrite (update_throws h t s node buf A K). reflexivity.
    + rewrite (beatFired_unavailable h t s A).
      rewrite (update_unavailable h t s A). reflexivity.
  - apply (run_pulse_unit fs s U).
  - intros B N. destruct U as [U0 U1].
    destruct (run_quiet_pulse fs s U0 C B) as [_ H].
    assert (Q0 : (0:Q) <= 0.9) by lra. assert (Q1 : (0.9:Q) < 1) by lra.
    pose proof (qpow_antitone 0.9 Q0 Q1 44 (length fs) N) as M.
    pose proof qpow_09_44 as T.
    pose proof (qpow_nonneg 0.9 Q0 (length fs)) as P. nra.
Qed.

(** The theorem on 44 paused frames after a beat. *)
Lemma C6_pulse_decay_witness :
  unit_interval (beatPulse afterBeat)
  /\ Forall (fun f => engineCoherent (host f) = true)
       (framesOn pausedHost 0 44)
  /\ beats (framesOn pausedHost 0 44) afterBeat = []
  /\ (44 <= length (framesOn pausedHost 0 44))%nat
  /\ beatPulse (run (framesOn pausedHost 0 44) afterBeat) < 0.01.
Proof.
  assert (U : unit_interval (beatPulse afterBeat)) by (split; simpl; lra).
  assert (C : Forall (fun f => engineCoherent (host f) = true)
                (framesOn pausedHost 0 44)).
  { apply (framesOn_hosts (fun h => engineCoherent h = true)). reflexivity. }
  assert (B : beats (framesOn pausedHost 0 44) afterBeat = [])
    by (vm_compute; reflexivity).
  assert (N : (44 <= length (framesOn pausedHost 0 44))%nat)
    by (rewrite framesOn_length; lia).
  destruct (C6_pulse_decay (framesOn pausedHost 0 44) afterBeat U C)
    as (_ & _ & K).
  split; [exact U | split; [exact C | split; [exact B | split; [exact N |]]]].
  exact (K B N).
Defined.



(** C8.  Without a live source (no analyser, no buffer, no audio element,
    or playback paused) a call returns normally, with the level times 0.92,
    the bass times 0.9 and the pulse times 0.9, none of them larger than
    before when they were not negative.  Over a run of such frames the
    level is the old one times 0.92 to the number of frames, the bass and
    the pulse the old ones times 0.9 to that number, and level and bass get
    below any positive bound after enough frames. *)
Theorem C8_unavailable_source_decay (s : State) :
  0 <= audioLevel s -> 0 <= audioBass s ->
  (forall (h : Host) (t : Q),
     audioSource h = None ->
     exists s' fill,
       updateAudioReactive h t s = Return s' fill
       /\ audioLevel s' = audioLevel s * 0.92
       /\ audioBass s' = audioBass s * 0.9
       /\ beatPulse s' = beatPulse s * 0.9
       /\ 0 <= audioLevel s' <= audioLevel s
       /\ 0 <= audioBass s' <= audioBass s)
  /\ (forall fs : list Frame,
        Forall (fun f => audioSource (host f) = None) fs ->
        audioLevel (run fs s) == audioLevel s * qpow 0.92 (length fs)
        /\ audioBass (run fs s) == audioBass s * qpow 0.9 (length fs)
        /\ beatPulse (run fs s) == beatPulse s * qpow 0.9 (length fs))
  /\ (forall eps : Q,
        0 < eps ->
        exists N : nat,
          forall fs : list Frame,
            Forall (fun f => audioSource (host f) = None) fs ->
            (N <= length fs)%nat ->
            audioLevel (run fs s) < eps /\ audioBass (run fs s) < eps).
Proof.
  intros L B. split; [| split].
  - intros h t A. rewrite (update_unavailable h t s A).
    eexists. eexists. split; [reflexivity |]. simpl.
    repeat split; lra.
  - intros fs A. destruct (run_unavailable fs s A) as (E1 & E2 & E3 & _).
    auto.
  - intros eps He.
    assert (Q92 : (0:Q) <= 0.92) by lra. assert (R92 : (0.92:Q) < 1) by lra.
    assert (Q9 : (0:Q) <= 0.9) by lra. assert (R9 : (0.9:Q) < 1) by lra.
    destruct (geometric_decay 0.92 Q92 R92 (audioLevel s) eps L He)
      as [N1 H1].
    destruct (geometric_decay 0.9 Q9 R9 (audioBass s) eps B He) as [N2 H2].
    exists (Nat.max N1 N2). intros fs A N.
    destruct (run_unavailable fs s A) as (E1 & E2 & _).
    rewrite E1, E2. split; [apply H1 | apply H2]; lia.
Qed.

(** The theorem on the page before the engine exists and on the paused
    page. *)
Lemma C8_unavailable_source_decay_witness :
  0 <= audioLevel afterBeat
  /\ 0 <= audioBass afterBeat
  /\ audioSource pausedHost = None
  /\ audioSource bareHost = None
  /\ (exists s' fill,
        updateAudioReactive bareHost 2 afterBeat = Return s' fill
        /\ audioLevel s' = 0.5 * 0.92)
  /\ audioLevel (run (framesOn pausedHost 0 2) afterBeat)
     == 0.5 * qpow 0.92 2.
Proof.
  assert (L : 0 <= audioLevel afterBeat) by (simpl; lra).
  assert (B : 0 <= audioBass afterBeat) by (simpl; lra).
  destruct (C8_unavailable_source_decay afterBeat L B) as (K1 & K2 & _).
  split; [exact L | split; [exact B |]].
  split; [reflexivity | split; [reflexivity | split]].
  - destruct (K1 bareHost 2 eq_refl) as (s' & fill & E & El & _).
    exists s', fill. split; [exact E | exact El].
  - assert (A : Forall (fun f => audioSource (host f) = None)
                  (framesOn pausedHost 0 2)).
    { apply (framesOn_hosts (fun h => audioSource h = None)). reflexivity. }
    destruct (K2 (framesOn pausedHost 0 2) A) as (E & _).
    rewrite framesOn_length in E. exact E.
Defined.

(** C9.  A call without a live source leaves the history, its running sum
    and the gate exactly as they were, and so does any run of such frames:
    detection resumes from the history and the gate it had. *)
Theorem C9_unavailable_source_frame (fs : list Frame) (s : State)
    (h : Host) (t : Q) :
  Forall (fun f => audioSource (host f) = None) fs ->
  audioSource h = None ->
  (beatHistory (stateOf (updateAudioReactive h t s)) = beatHistory s
   /\ beatHistorySum (stateOf (updateAudioReactive h t s)) = beatHistorySum s
   /\ beatGateUntil (stateOf (updateAudioReactive h t s)) = beatGateUntil s)
  /\ (beatHistory (run fs s) = beatHistory s
      /\ beatHistorySum (run fs s) = beatHistorySum s
      /\ beatGateUntil (run fs s) = beatGateUntil s).
Proof.
  intros A Ah. split.
  - rewrite (update_unavailable h t s Ah). simpl. auto.
  - destruct (run_unavailable fs s A) as (_ & _ & _ & G & S & H). auto.
Qed.

(** The theorem on five paused frames after a beat. *)
Lemma C9_unavailable_source_frame_witness :
  Forall (fun f => audioSource (host f) = None) (framesOn pausedHost 0 5)
  /\ audioSource bareHost = None
  /\ beatHistory (run (framesOn pausedHost 0 5) afterBeat) = [0.5]
  /\ beatHistorySum (run (framesOn pausedHost 0 5) afterBeat) = 0.5
  /\ beatGateUntil (run (framesOn pausedHost 0 5) afterBeat) = 1.17
  /\ beatGateUntil (stateOf (updateAudioReactive bareHost 3 afterBeat))
     = 1.17.
Proof.
  assert (A : Forall (fun f => audioSource (host f) = None)
                (framesOn pausedHost 0 5)).
  { apply (framesOn_hosts (fun h => audioSource h = None)). reflexivity. }
  destruct (C9_unavailable_source_frame (framesOn pausedHost 0 5) afterBeat
              bareHost 3 A eq_refl) as ((_ & _ & G1) & H & S & G).
  split; [exact A | split; [reflexivity |]].
  split; [exact H | split; [exact S | split; [exact G | exact G1]]].
Defined.

(** C10.  On a live call that finds the history empty (and its sum 0), the
    push leaves the smoothed bass as the only member, the threshold is
    [max(0.14, bass * 1.32)], which no bass exceeds, no beat fires, the
    gate stays and the pulse is the old one times 0.855. *)
Theorem C10_first_live_call_never_fires
    (h : Host) (t : Q) (s : State) node buf ctx :
  audioSource h = Some (node, buf) ->
  audioContext h = Some ctx ->
  beatHistory s = [] ->
  beatHistorySum s == 0 ->
  let s' := stateOf (updateAudioReactive h t s) in
  beatHistory s' = [audioBass s']
  /\ beatHistorySum s' == audioBass s'
  /\ threshold s' == Math_max 0.14 (audioBass s' * 1.32)
  /\ (forall b : Q, gtb b (Math_max 0.14 (b * 1.32)) = false)
  /\ beatFired h t s = false
  /\ beatPulse s' == beatPulse s * 0.855
  /\ beatGateUntil s' = beatGateUntil s.
Proof.
  intros A C H S s'. subst s'.
  destruct (update_live h t s node buf ctx A C) as [-> ->]. simpl.
  destruct (beforeDetector_frame (sampleRate ctx)
              (getByteFrequencyData node buf) s) as [P G].
  set (d := getByteFrequencyData node buf) in *.
  set (r := sampleRate ctx) in *.
  assert (R : (length (beatHistory
                         (smooth r d (set_beatPulse (beatPulse s * 0.9) s)))
               < 42)%nat).
  { destruct (smooth_frame r d (set_beatPulse (beatPulse s * 0.9) s))
      as (_ & _ & _ & ->). simpl. rewrite H. simpl. lia. }
  destruct (pushHistory_room _ R) as [Eh Es].
  destruct (pushHistory_frame
              (smooth r d (set_beatPulse (beatPulse s * 0.9) s)))
    as (_ & Eb & _).
  assert (Sh : beatHistory
                 (smooth r d (set_beatPulse (beatPulse s * 0.9) s)) = [])
    by exact H.
  assert (Ss : beatHistorySum
                 (smooth r d (set_beatPulse (beatPulse s * 0.9) s))
               = beatHistorySum s) by reflexivity.
  rewrite Sh in Eh. rewrite Ss in Es. simpl in Eh.
  fold (beforeDetector r d s) in Eh, Es, Eb.
  set (p := beforeDetector r d s) in *.
  set (b := audioBass (smooth r d (set_beatPulse (beatPulse s * 0.9) s)))
    in *.
  assert (Sum : beatHistorySum p == audioBass p).
  { rewrite Es, Eb, S. lra. }
  assert (NoBass : forall x : Q, gtb x (Math_max 0.14 (x * 1.32)) = false).
  { intro x. apply gtb_false. unfold Math_max. case_compare; lra. }
  assert (Avg : averageBass p == audioBass p).
  { unfold averageBass. rewrite Eh. simpl. rewrite Sum.
    unfold Qdiv. change (/ inject_Z 1) with 1. lra. }
  assert (Thr : threshold p == Math_max 0.14 (audioBass p * 1.32)).
  { unfold threshold, Math_max.
    destruct (Qlt_le_dec 0.14 (averageBass p * 1.32));
      destruct (Qlt_le_dec 0.14 (audioBass p * 1.32)); rewrite Avg in *;
      lra. }
  assert (D : beatDetected t p = false).
  { unfold beatDetected. apply andb_false_iff. left. apply gtb_false.
    rewrite Thr. apply gtb_false, NoBass. }
  destruct (detectBeat_quiet t p D) as [Ep Eg].
  destruct (detectBeat_frame t p) as (_ & Fb & Fs & Fh).
  assert (Thr' : threshold (detectBeat t p) = threshold p).
  { unfold threshold, averageBass. rewrite Fs, Fh. reflexivity. }
  rewrite Fh, Fs, Fb, Thr', Ep, Eg, P, G, Eh, Eb.
  repeat split; try assumption; try reflexivity.
  - rewrite <- Eb. exact Sum.
  - rewrite <- Eb. exact Thr.
  - lra.
Qed.

(** The theorem on the first live frame of the sample page. *)
Lemma C10_first_live_call_never_fires_witness :
  beatHistory initialState = []
  /\ beatHistorySum initialState == 0
  /\ beatFired liveHost 0.016 initialState = false
  /\ beatGateUntil (stateOf (updateAudioReactive liveHost 0.016 initialState))
     = 0.
Proof.
  split; [reflexivity | split; [reflexivity |]].
  destruct (C10_first_live_call_never_fires liveHost 0.016 initialState
              {| byteFrequencyData := bassSpectrum |} (repeat 0%Z 512)
              {| sampleRate := 44100 |} eq_refl eq_refl eq_refl
              (Qeq_refl 0))
    as (_ & _ & _ & _ & F & _ & G).
  split; [exact F | exact G].
Defined.

(** * Further properties of the source *)

(** ** The pipeline *)

Lemma threshold_floor (s : State) : 0.14 <= threshold s.
Proof. unfold threshold, Math_max. case_compare; lra. Qed.

Lemma beforeDetector_bass (rate : Q) (data : list Z) (s : State) :
  audioBass (beforeDetector rate data s)
  = audioBass s * 0.72 + bassValue rate data * 0.28.
Proof.
  unfold beforeDetector.
  destruct (pushHistory_frame
              (smooth rate data (set_beatPulse (beatPulse s * 0.9) s)))
    as (_ & -> & _).
  reflexivity.
Qed.

Lemma update_quiet (h : Host) (t : Q) (s : State) :
  audioBass s <= 0.14 -> quietHost h ->
  beatFired h t s = false
  /\ audioBass (stateOf (updateAudioReactive h t s)) <= 0.14.
Proof.
  intros B V. unfold quietHost in V. host_cases h as node buf ctx A C.
  - destruct (update_live h t s node buf ctx A C) as [-> ->]. simpl.
    destruct (detectBeat_frame t
                (beforeDetector (sampleRate ctx)
                   (getByteFrequencyData node buf) s)) as (_ & -> & _).
    pose proof (beforeDetector_bass (sampleRate ctx)
                  (getByteFrequencyData node buf) s) as E.
    pose proof (threshold_floor
                  (beforeDetector (sampleRate ctx)
                     (getByteFrequencyData node buf) s)) as T.
    split.
    + unfold beatDetected. apply andb_false_iff. left. apply gtb_false.
      rewrite E. lra.
    + rewrite E. lra.
  - rewrite (beatFired_throws h t s C).
    rewrite (update_throws h t s node buf A C). simpl. auto.
  - rewrite (beatFired_unavailable h t s A).
    rewrite (update_unavailable h t s A). simpl. split; [reflexivity | lra].
Qed.

(** X1.  The floor of the threshold keeps quiet passages from firing: when
    the smoothed bass starts at or below 0.14 and the bass energy of every
    live snapshot is at or below 0.14, a run fires no beat, whatever the
    time stamps and the history, and the smoothed bass stays at or below
    0.14. *)
Theorem X1_no_beat_below_floor (fs : list Frame) :
  forall s : State,
    audioBass s <= 0.14 ->
    Forall (fun f => quietHost (host f)) fs ->
    beats fs s = [] /\ audioBass (run fs s) <= 0.14.
Proof.
  induction fs as [| f fs IH]; intros s B V; simpl; [auto |].
  inversion V as [| f' fs' Vf Vfs]; subst.
  destruct (update_quiet (host f) (seconds f) s B Vf) as [F B'].
  unfold frame. rewrite F.
  destruct (updateAudioReactive (host f) (seconds f) s) as [s' fill | s'];
    simpl in B'; [apply IH; assumption | auto].
Qed.

Lemma silentHost_quiet : quietHost silentHost.
Proof. unfold quietHost. vm_compute. discriminate. Qed.

(** The theorem on 50 frames of silence. *)
Lemma X1_no_beat_below_floor_witness :
  audioBass initialState <= 0.14
  /\ Forall (fun f => quietHost (host f)) (framesOn silentHost 0 50)
  /\ beats (framesOn silentHost 0 50) initialState = [].
Proof.
  assert (B : audioBass initialState <= 0.14) by (simpl; lra).
  assert (V : Forall (fun f => quietHost (host f)) (framesOn silentHost 0 50))
    by (apply (framesOn_hosts quietHost), silentHost_quiet).
  split; [exact B | split; [exact V |]].
  apply (X1_no_beat_below_floor (framesOn silentHost 0 50) initialState B V).
Defined.

Lemma lastn_rev {A : Type} (n : nat) (l : list A) :
  lastn n l = rev (firstn n (rev l)).
Proof. unfold lastn. rewrite firstn_rev, rev_involutive. reflexivity. Qed.

Lemma lastn_app_lastn {A : Type} (n : nat) (l r : list A) :
  lastn n (lastn n l ++ r) = lastn n (l ++ r).
Proof.
  rewrite !lastn_rev, !rev_app_distr, rev_involutive. f_equal.
  rewrite !firstn_app, firstn_firstn. f_equal. f_equal. lia.
Qed.

Lemma lastn_short {A : Type} (n : nat) (l : list A) :
  (length l <= n)%nat -> lastn n l = l.
Proof.
  intro H. unfold lastn. replace (length l - n)%nat with O by lia.
  reflexivity.
Qed.

Lemma pushHistory_window (s : State) :
  (length (beatHistory s) <= 42)%nat ->
  beatHistory (pushHistory s) = lastn 42 (beatHistory s ++ [audioBass s]).
Proof.
  intro H. destruct (Nat.lt_ge_cases (length (beatHistory s)) 42) as [R | F].
  - destruct (pushHistory_room s R) as [-> _]. symmetry.
    apply lastn_short. rewrite length_app. simpl. lia.
  - destruct (beatHistory s) as [| oldest rest] eqn:E; [simpl in F; lia |].
    assert (F' : (42 <= length (beatHistory s))%nat) by (rewrite E; exact F).
    destruct (pushHistory_full s oldest rest E F') as [-> _].
    assert (L : length rest = 41%nat) by (simpl in H, F; lia).
    unfold lastn. rewrite length_app. cbn [length]. rewrite L. reflexivity.
Qed.

Lemma update_window (h : Host) (t : Q) (s : State) :
  (length (beatHistory s) <= 42)%nat ->
  let s' := stateOf (updateAudioReactive h t s) in
  beatHistory s'
  = match audioSource h, audioContext h with
    | Some _, Some _ => lastn 42 (beatHistory s ++ [audioBass s'])
    | _, _ => beatHistory s
    end.
Proof.
  intros H s'. subst s'. host_cases h as node buf ctx A C.
  - destruct (update_live h t s node buf ctx A C) as [-> _]. simpl.
    destruct (detectBeat_frame t
                (beforeDetector (sampleRate ctx)
                   (getByteFrequencyData node buf) s)) as (_ & -> & _ & ->).
    unfold beforeDetector. rewrite pushHistory_window by exact H.
    destruct (pushHistory_frame
                (smooth (sampleRate ctx) (getByteFrequencyData node buf)
                   (set_beatPulse (beatPulse s * 0.9) s)))
      as (_ & -> & _).
    reflexivity.
  - rewrite (update_throws h t s node buf A C). reflexivity.
  - rewrite (update_unavailable h t s A). reflexivity.
Qed.

(** X2.  The beat history is a sliding window: after a run from a history
    of at most 42 samples, it holds the last 42 of the old samples followed
    by the smoothed bass values the live frames pushed, oldest first. *)
Theorem X2_history_is_last_42_pushes (fs : list Frame) :
  forall s : State,
    (length (beatHistory s) <= 42)%nat ->
    beatHistory (run fs s) = lastn 42 (beatHistory s ++ pushes fs s).
Proof.
  induction fs as [| f fs IH]; intros s H; simpl.
  - rewrite app_nil_r. symmetry. apply lastn_short, H.
  - pose proof (update_window (host f) (seconds f) s H) as W.
    unfold frame in *. cbv zeta in W.
    destruct (updateAudioReactive (host f) (seconds f) s)
      as [s' fill | s'] eqn:E; simpl in W.
    + assert (H' : (length (beatHistory s') <= 42)%nat).
      { rewrite W. destruct (audioSource (host f)) as [src |]; [| exact H].
        destruct (audioContext (host f)); [| exact H].
        unfold lastn. rewrite length_skipn. lia. }
      rewrite (IH s' H').
      destruct (audioSource (host f)) as [src |] eqn:A.
      * destruct (audioContext (host f)) as [ctx |] eqn:C.
        -- rewrite W, lastn_app_lastn, <- app_assoc. reflexivity.
        -- destruct src as [node buf].
           rewrite (update_throws _ _ s node buf A C) in E. discriminate.
      * rewrite W. reflexivity.
    + rewrite app_nil_r. rewrite W.
      destruct (audioSource (host f)) as [src |] eqn:A;
        [| symmetry; apply lastn_short, H].
      destruct (audioContext (host f)) as [ctx |] eqn:C;
        [| symmetry; apply lastn_short, H].
      destruct src as [node buf].
      destruct (update_live _ (seconds f) s node buf ctx A C) as [E' _].
      rewrite E' in E. discriminate.
Qed.

(** The theorem on three live frames after a beat: the old sample and the
    three pushes. *)
Lemma X2_history_is_last_42_pushes_witness :
  (length (beatHistory afterBeat) <= 42)%nat
  /\ beatHistory (run (framesOn liveHost 0 3) afterBeat)
     = lastn 42 (0.5 :: pushes (framesOn liveHost 0 3) afterBeat).
Proof.
  assert (H : (length (beatHistory afterBeat) <= 42)%nat) by (simpl; lia).
  split; [exact H |].
  apply (X2_history_is_last_42_pushes (framesOn liveHost 0 3) afterBeat H).
Defined.

(** X3.  The smoothing filter moves each average toward its input and never
    past it: on a live call the distance of the bass to the bass energy of
    the snapshot shrinks by the factor 0.72, that of the level to the body
    energy by 0.84, and the new values lie between the old ones and the
    inputs. *)
Theorem X3_smoothing_moves_toward_input
    (h : Host) (t : Q) (s : State) node buf ctx :
  audioSource h = Some (node, buf) ->
  audioContext h = Some ctx ->
  let s' := stateOf (updateAudioReactive h t s) in
  let v := bassValue (sampleRate ctx) (getByteFrequencyData node buf) in
  let w := bodyValue (sampleRate ctx) (getByteFrequencyData node buf) in
  audioBass s' - v == 0.72 * (audioBass s - v)
  /\ audioLevel s' - w == 0.84 * (audioLevel s - w)
  /\ Math_min (audioBass s) v <= audioBass s' <= Math_max (audioBass s) v
  /\ Math_min (audioLevel s) w <= audioLevel s' <= Math_max (audioLevel s) w.
Proof.
  intros A C s' v w. subst s'.
  destruct (update_smoothing_values h t s node buf ctx A C) as [-> ->].
  fold v w. unfold Math_min, Math_max. case_compare; repeat split; lra.
Qed.

(** The theorem on a live call of the sample page. *)
Lemma X3_smoothing_moves_toward_input_witness :
  audioSource liveHost
  = Some ({| byteFrequencyData := bassSpectrum |}, repeat 0%Z 512)
  /\ audioContext liveHost = Some {| sampleRate := 44100 |}
  /\ audioBass (stateOf (updateAudioReactive liveHost 1 afterBeat))
     - bassValue 44100 bassSpectrum
     == 0.72 * (0.5 - bassValue 44100 bassSpectrum).
Proof.
  split; [reflexivity | split; [reflexivity |]].
  destruct (X3_smoothing_moves_toward_input liveHost 1 afterBeat
              {| byteFrequencyData := bassSpectrum |} (repeat 0%Z 512)
              {| sampleRate := 44100 |} eq_refl eq_refl) as [E _].
  rewrite liveHost_data in E. exact E.
Defined.


Lemma bytes_app (l r : list Z) :
  Forall (fun b => (0 <= b <= 255)%Z) l ->
  Forall (fun b => (0 <= b <= 255)%Z) r ->
  Forall (fun b => (0 <= b <= 255)%Z) (l ++ r).
Proof. intros L R. apply Forall_app. split; assumption. Qed.

Lemma getByteFrequencyData_length (node : AnalyserNode) (buf : list Z) :
  length (getByteFrequencyData node buf) = length buf.
Proof.
  unfold getByteFrequencyData.
  rewrite length_app, length_firstn, length_skipn. lia.
Qed.

(** X5.  Filling the buffer keeps its length, whatever the analyser
    delivers, and a buffer of bytes filled with bytes holds bytes: with a
    positive sample rate and a buffer of at least one bin the snapshot the
    extractor reads is valid, and its two energies are in [0, 1]. *)
Theorem X5_filled_buffer_is_valid
    (node : AnalyserNode) (buf : list Z) (rate : Q) :
  0 < rate ->
  (1 <= length buf)%nat ->
  Forall (fun b => (0 <= b <= 255)%Z) (byteFrequencyData node) ->
  Forall (fun b => (0 <= b <= 255)%Z) buf ->
  length (getByteFrequencyData node buf) = length buf
  /\ validSnapshot rate (getByteFrequencyData node buf)
  /\ unit_interval (bassValue rate (getByteFrequencyData node buf))
  /\ unit_interval (bodyValue rate (getByteFrequencyData node buf)).
Proof.
  intros R L N B.
  assert (V : validSnapshot rate (getByteFrequencyData node buf)).
  { split; [exact R | split].
    - rewrite getByteFrequencyData_length. exact L.
    - unfold getByteFrequencyData.
      apply bytes_app; [apply bytes_firstn, N | apply bytes_skipn, B]. }
  split; [apply getByteFrequencyData_length | split; [exact V |]].
  split; [apply bassValue_unit, V | apply bodyValue_unit, V].
Qed.

(** The theorem on an analyser that delivers two magnitudes into a buffer
    of three: the third bin keeps its value. *)
Lemma X5_filled_buffer_is_valid_witness :
  getByteFrequencyData {| byteFrequencyData := [200; 100]%Z |} [1; 2; 3]%Z
  = [200; 100; 3]%Z
  /\ validSnapshot 8000
       (getByteFrequencyData {| byteFrequencyData := [200; 100]%Z |}
          [1; 2; 3]%Z).
Proof.
  split; [reflexivity |].
  assert (R : 0 < 8000) by lra.
  assert (L : (1 <= length [1; 2; 3]%Z)%nat) by (simpl; lia).
  assert (N : Forall (fun b => (0 <= b <= 255)%Z) [200; 100]%Z)
    by (repeat constructor; lia).
  assert (B : Forall (fun b => (0 <= b <= 255)%Z) [1; 2; 3]%Z)
    by (repeat constructor; lia).
  apply (X5_filled_buffer_is_valid {| byteFrequencyData := [200; 100]%Z |}
           [1; 2; 3]%Z 8000 R L N B).
Defined.

Lemma clampMeter_monotone (x y : Q) :
  x <= y -> clampMeter x <= clampMeter y.
Proof.
  intro H. unfold clampMeter, Math_max, Math_min. case_compare; lra.
Qed.

(** X6.  [setAudioMeter] does nothing without the meter element; with it,
    the style it writes does not depend on the style it replaces, the
    opacity lies in [0.321, 1], a level at or below 0.03 shows the floor
    and one at or above 1 the full bar, and a larger level never shows a
    shorter bar. *)
Theorem X6_meter_style (level : Q) :
  setAudioMeter None level = None
  /\ (forall old : MeterFill,
        exists m : MeterFill,
          setAudioMeter (Some old) level = Some m
          /\ setAudioMeter (Some meterAtRest) level = Some m
          /\ 0.321 <= opacity m <= 1
          /\ (if Qlt_le_dec 0.03 level then 0.03 <= scaleX m
              else scaleX m == 0.03)
          /\ (if Qlt_le_dec level 1 then scaleX m <= 1 else scaleX m == 1))
  /\ (forall other : Q, level <= other -> clampMeter level <= clampMeter other).
Proof.
  split; [reflexivity | split; [| intros other H; apply clampMeter_monotone, H]].
  intro old. eexists. split; [reflexivity | split; [reflexivity |]].
  simpl. pose proof (clampMeter_range level) as [R0 R1].
  split; [lra |]. unfold clampMeter, Math_max, Math_min in *.
  case_compare; split; lra.
Qed.

(** The theorem at the call the page boots with, [setAudioMeter(0.03)]. *)
Lemma X6_meter_style_witness :
  setAudioMeter (Some meterAtRest) 0.03
  = Some {| scaleX := clampMeter 0.03; opacity := 0.3 + clampMeter 0.03 * 0.7 |}
  /\ clampMeter 0.03 <= clampMeter 0.5.
Proof.
  destruct (X6_meter_style 0.03) as (_ & _ & M).
  split; [reflexivity | apply M; lra].
Defined.

(** ** [hexToRgb] *)

Lemma land_255_byte (x : Z) : (0 <= Z.land x 255 <= 255)%Z.
Proof.
  change 255%Z with (Z.ones 8). rewrite Z.land_ones by lia.
  pose proof (Z.mod_pos_bound x (2 ^ 8)) as H.
  change (2 ^ 8)%Z with 256%Z in *. unfold Z.ones. simpl. lia.
Qed.

(** X7.  Whatever the string, the three components [hexToRgb] returns are
    bytes. *)
Theorem X7_hexToRgb_components_are_bytes (hex : String.string) :
  (0 <= Rgb.r (hexToRgb hex) <= 255)%Z
  /\ (0 <= Rgb.g (hexToRgb hex) <= 255)%Z
  /\ (0 <= Rgb.b (hexToRgb hex) <= 255)%Z.
Proof. unfold hexToRgb. simpl. repeat split; apply land_255_byte. Qed.

(** Split a digit value into its sixteen cases. *)
Ltac digit_cases d :=
  let H := fresh "H" in
  assert (H : (d = 0 \/ d = 1 \/ d = 2 \/ d = 3 \/ d = 4 \/ d = 5 \/ d = 6
               \/ d = 7 \/ d = 8 \/ d = 9 \/ d = 10 \/ d = 11 \/ d = 12
               \/ d = 13 \/ d = 14 \/ d = 15)%Z) by lia;
  repeat (destruct H as [H | H]; [rewrite H |]); try rewrite H.

Lemma hexChar_value (d : Z) :
  (0 <= d < 16)%Z -> hexDigitValue (hexChar d) = Some d.
Proof. intro R. digit_cases d; reflexivity. Qed.

Lemma hexChar_plain (d : Z) :
  (0 <= d < 16)%Z ->
  isWhiteSpace (hexChar d) = false
  /\ Ascii.eqb (hexChar d) "-"%char = false
  /\ Ascii.eqb (hexChar d) "+"%char = false
  /\ Ascii.eqb (hexChar d) "#"%char = false
  /\ Ascii.eqb (hexChar d) "x"%char = false
  /\ Ascii.eqb (hexChar d) "X"%char = false.
Proof. intro R. digit_cases d; repeat split; reflexivity. Qed.

Lemma hexDigits_digit (d : Z) (rest : String.string) (read : option Z) :
  (0 <= d < 16)%Z ->
  hexDigits (String.String (hexChar d) rest) read
  = hexDigits rest
      (Some (match read with Some n => n * 16 + d | None => d end)%Z).
Proof. intro R. cbn [hexDigits]. rewrite (hexChar_value d R). reflexivity. Qed.

Lemma parseInt16_two_digits (d1 d2 : Z) (rest : String.string) :
  (0 <= d1 < 16)%Z -> (0 <= d2 < 16)%Z ->
  parseInt16 (String.String (hexChar d1) (String.String (hexChar d2) rest))
  = match hexDigits rest (Some (d1 * 16 + d2)%Z) with
    | None => NaN
    | Some mathInt => roundToDouble (1 * mathInt)
    end.
Proof.
  intros R1 R2.
  destruct (hexChar_plain d1 R1) as (W & M & P & _).
  destruct (hexChar_plain d2 R2) as (_ & _ & _ & _ & X1 & X2).
  unfold parseInt16. cbn [trimStart]. rewrite W, M, P, X1, X2.
  rewrite andb_false_r. rewrite !hexDigits_digit by assumption. reflexivity.
Qed.

Lemma roundToDouble_small (n : Z) :
  (Z.abs n < 2 ^ 53)%Z -> roundToDouble n = Int n.
Proof.
  intro H. unfold roundToDouble.
  destruct (Z.ltb_spec (Z.abs n) (2 ^ 53)); [reflexivity | lia].
Qed.

Lemma ToInt32_small (n : Z) :
  (0 <= n < 2 ^ 31)%Z -> ToInt32 (Int n) = n.
Proof.
  intro H. unfold ToInt32.
  assert (P : (2 ^ 31 < 2 ^ 32)%Z) by reflexivity.
  rewrite Z.mod_small by lia.
  destruct (Z.leb_spec (2 ^ 31) n); [lia | reflexivity].
Qed.

Lemma rgb_bits (R G B : Z) :
  (0 <= R <= 255)%Z -> (0 <= G <= 255)%Z -> (0 <= B <= 255)%Z ->
  let n := (R * 65536 + G * 256 + B)%Z in
  Z.land (Z.shiftr n 16) 255 = R
  /\ Z.land (Z.shiftr n 8) 255 = G
  /\ Z.land n 255 = B.
Proof.
  intros HR HG HB n. change 255%Z with (Z.ones 8).
  rewrite !Z.land_ones, !Z.shiftr_div_pow2 by lia.
  change (2 ^ 16)%Z with 65536%Z. change (2 ^ 8)%Z with 256%Z.
  assert (E1 : (n / 65536 = R)%Z).
  { symmetry. apply (Z.div_unique n 65536 R (G * 256 + B)); lia. }
  assert (E2 : (n / 256 = R * 256 + G)%Z).
  { symmetry. apply (Z.div_unique n 256 (R * 256 + G) B); lia. }
  rewrite E1, E2. repeat split.
  - apply Z.mod_small. lia.
  - symmetry. apply (Z.mod_unique (R * 256 + G) 256 R G); lia.
  - symmetry. apply (Z.mod_unique n 256 (R * 256 + G) B); lia.
Qed.

(** Six digits of radix 16 are read as three bytes. *)
Lemma hexToRgb_six_digits (d1 d2 d3 d4 d5 d6 : Z) :
  (0 <= d1 < 16)%Z -> (0 <= d2 < 16)%Z -> (0 <= d3 < 16)%Z ->
  (0 <= d4 < 16)%Z -> (0 <= d5 < 16)%Z -> (0 <= d6 < 16)%Z ->
  let chunk :=
    String.String (hexChar d1) (String.String (hexChar d2)
      (String.String (hexChar d3) (String.String (hexChar d4)
        (String.String (hexChar d5) (String.String (hexChar d6)
          String.EmptyString))))) in
  replaceFirstHash chunk = chunk
  /\ parseInt16 chunk
     = Int ((d1 * 16 + d2) * 65536 + (d3 * 16 + d4) * 256 + (d5 * 16 + d6))
  /\ hexToRgb chunk
     = {| Rgb.r := d1 * 16 + d2; Rgb.g := d3 * 16 + d4;
          Rgb.b := d5 * 16 + d6 |}
  /\ hexToRgb (String.String "#"%char chunk) = hexToRgb chunk.
Proof.
  intros R1 R2 R3 R4 R5 R6 chunk.
  assert (Hash : replaceFirstHash chunk = chunk).
  { unfold chunk. cbn [replaceFirstHash].
    destruct (hexChar_plain d1 R1) as (_ & _ & _ & -> & _).
    destruct (hexChar_plain d2 R2) as (_ & _ & _ & -> & _).
    destruct (hexChar_plain d3 R3) as (_ & _ & _ & -> & _).
    destruct (hexChar_plain d4 R4) as (_ & _ & _ & -> & _).
    destruct (hexChar_plain d5 R5) as (_ & _ & _ & -> & _).
    destruct (hexChar_plain d6 R6) as (_ & _ & _ & -> & _).
    reflexivity. }
  assert (Parse : parseInt16 chunk
                  = Int ((d1 * 16 + d2) * 65536 + (d3 * 16 + d4) * 256
                         + (d5 * 16 + d6))).
  { unfold chunk. rewrite parseInt16_two_digits by assumption.
    rewrite !hexDigits_digit by assumption. cbn [hexDigits].
    rewrite roundToDouble_small.
    - f_equal. lia.
    - assert (P : (2 ^ 53 = 9007199254740992)%Z) by reflexivity. lia. }
  split; [exact Hash | split; [exact Parse |]].
  assert (Rgb : hexToRgb chunk
                = {| Rgb.r := d1 * 16 + d2; Rgb.g := d3 * 16 + d4;
                     Rgb.b := d5 * 16 + d6 |}).
  { unfold hexToRgb. rewrite Hash.
    replace (String.length chunk =? 3)%nat with false by reflexivity.
    rewrite Parse, ToInt32_small.
    - destruct (rgb_bits (d1 * 16 + d2) (d3 * 16 + d4) (d5 * 16 + d6))
        as (-> & -> & ->); [lia | lia | lia | reflexivity].
    - assert (P : (2 ^ 31 = 2147483648)%Z) by reflexivity. lia. }
  split; [exact Rgb |].
  unfold hexToRgb at 1. cbn [replaceFirstHash].
  replace (Ascii.eqb "#"%char "#"%char) with true by reflexivity.
  unfold hexToRgb. rewrite Hash. reflexivity.
Qed.

(** X8.  Round trip: a colour written as [#] and the two lower-case digits
    of each of its bytes is read back as those bytes, and the [#] is
    optional. *)
Theorem X8_hexToRgb_reads_six_digits (R G B : Z) :
  (0 <= R <= 255)%Z -> (0 <= G <= 255)%Z -> (0 <= B <= 255)%Z ->
  let digits := String.append (toHex2 R) (String.append (toHex2 G) (toHex2 B)) in
  hexToRgb (String.String "#"%char digits)
  = {| Rgb.r := R; Rgb.g := G; Rgb.b := B |}
  /\ hexToRgb digits = {| Rgb.r := R; Rgb.g := G; Rgb.b := B |}.
Proof.
  intros HR HG HB digits.
  pose proof (Z.div_mod R 16) as DR. pose proof (Z.mod_pos_bound R 16) as MR.
  pose proof (Z.div_mod G 16) as DG. pose proof (Z.mod_pos_bound G 16) as MG.
  pose proof (Z.div_mod B 16) as DB. pose proof (Z.mod_pos_bound B 16) as MB.
  destruct (hexToRgb_six_digits (R / 16) (R mod 16) (G / 16) (G mod 16)
              (B / 16) (B mod 16)) as (_ & _ & E & F); try lia.
  unfold digits, toHex2. cbn [String.append]. rewrite F, E.
  replace (R / 16 * 16 + R mod 16)%Z with R by lia.
  replace (G / 16 * 16 + G mod 16)%Z with G by lia.
  replace (B / 16 * 16 + B mod 16)%Z with B by lia.
  split; reflexivity.
Qed.

(** The theorem on the accent the page starts with, [#ff8569]. *)
Lemma X8_hexToRgb_reads_six_digits_witness :
  hexToRgb "#ff8569"%string = {| Rgb.r := 255; Rgb.g := 133; Rgb.b := 105 |}.
Proof.
  apply (X8_hexToRgb_reads_six_digits 255 133 105); lia.
Defined.

(** X9.  Short form: [#] and three digits are read with every digit
    doubled, so each component is 17 times its digit. *)
Theorem X9_hexToRgb_doubles_three_digits (x y z : Z) :
  (0 <= x < 16)%Z -> (0 <= y < 16)%Z -> (0 <= z < 16)%Z ->
  let short :=
    String.String (hexChar x) (String.String (hexChar y)
      (String.String (hexChar z) String.EmptyString)) in
  hexToRgb (String.String "#"%char short)
  = {| Rgb.r := 17 * x; Rgb.g := 17 * y; Rgb.b := 17 * z |}
  /\ hexToRgb (String.String "#"%char short)
     = hexToRgb (String.String "#"%char (doubleChars short)).
Proof.
  intros Hx Hy Hz short.
  destruct (hexToRgb_six_digits x x y y z z Hx Hx Hy Hy Hz Hz)
    as (_ & P & E & F).
  assert (S : hexToRgb (String.String "#"%char short)
              = {| Rgb.r := 17 * x; Rgb.g := 17 * y; Rgb.b := 17 * z |}).
  { unfold hexToRgb, short. cbn [replaceFirstHash].
    replace (Ascii.eqb "#"%char "#"%char) with true by reflexivity.
    cbn [String.length Nat.eqb doubleChars]. rewrite P, ToInt32_small.
    - destruct (rgb_bits (x * 16 + x) (y * 16 + y) (z * 16 + z))
        as (-> & -> & ->); [lia | lia | lia |]. f_equal; lia.
    - assert (Q : (2 ^ 31 = 2147483648)%Z) by reflexivity. lia. }
  split; [exact S |].
  rewrite S. unfold short. cbn [doubleChars]. rewrite F, E. f_equal; lia.
Qed.

(** The theorem on [#f80]. *)
Lemma X9_hexToRgb_doubles_three_digits_witness :
  hexToRgb "#f80"%string = {| Rgb.r := 255; Rgb.g := 136; Rgb.b := 0 |}.
Proof.
  apply (X9_hexToRgb_doubles_three_digits 15 8 0); lia.
Defined.

Lemma parseInt16_not_a_number (c : ascii) (rest : String.string) :
  isWhiteSpace c = false -> hexDigitValue c = None ->
  Ascii.eqb c "-"%char = false -> Ascii.eqb c "+"%char = false ->
  parseInt16 (String.String c rest) = NaN.
Proof.
  intros W D M P. unfold parseInt16. cbn [trimStart]. rewrite W, M, P.
  assert (Z : Ascii.eqb c "0"%char = false).
  { destruct (Ascii.eqb_spec c "0"%char) as [-> | N]; [| reflexivity].
    discriminate D. }
  destruct rest as [| c2 rest]; [| rewrite Z; cbn [andb]];
    cbn [hexDigits]; rewrite D; reflexivity.
Qed.

(** X10.  A string with no digit to read gives black: the empty string, a
    lone [#], and every string whose first character (a [#] apart) is
    neither white space, nor a sign, nor a digit of radix 16. *)
Theorem X10_hexToRgb_black_without_digits
    (c : ascii) (rest : String.string) :
  isWhiteSpace c = false -> hexDigitValue c = None ->
  Ascii.eqb c "-"%char = false -> Ascii.eqb c "+"%char = false ->
  Ascii.eqb c "#"%char = false ->
  hexToRgb (String.String c rest) = {| Rgb.r := 0; Rgb.g := 0; Rgb.b := 0 |}
  /\ hexToRgb (String.String "#"%char (String.String c rest))
     = {| Rgb.r := 0; Rgb.g := 0; Rgb.b := 0 |}
  /\ hexToRgb String.EmptyString = {| Rgb.r := 0; Rgb.g := 0; Rgb.b := 0 |}
  /\ hexToRgb "#"%string = {| Rgb.r := 0; Rgb.g := 0; Rgb.b := 0 |}.
Proof.
  intros W D M P H.
  assert (K : forall tail,
             (let chunk :=
                if (String.length (String.String c tail) =? 3)%nat
                then doubleChars (String.String c tail)
                else String.String c tail in
              parseInt16 chunk) = NaN).
  { intro tail. cbv zeta.
    destruct (String.length (String.String c tail) =? 3)%nat.
    - cbn [doubleChars]. apply parseInt16_not_a_number; assumption.
    - apply parseInt16_not_a_number; assumption. }
  split; [| split; [| split; reflexivity]].
  - unfold hexToRgb. cbn [replaceFirstHash]. rewrite H.
    specialize (K (replaceFirstHash rest)). cbv zeta in K. rewrite K.
    reflexivity.
  - unfold hexToRgb. cbn [replaceFirstHash].
    replace (Ascii.eqb "#"%char "#"%char) with true by reflexivity.
    specialize (K rest). cbv zeta in K. rewrite K. reflexivity.
Qed.

(** The theorem on [#zzz]. *)
Lemma X10_hexToRgb_black_without_digits_witness :
  hexToRgb "#zzz"%string = {| Rgb.r := 0; Rgb.g := 0; Rgb.b := 0 |}.
Proof.
  destruct (X10_hexToRgb_black_without_digits "z"%char "zz"%string
              eq_refl eq_refl eq_refl eq_refl eq_refl) as (_ & E & _).
  exact E.
Defined.

(** ** [fitLines] *)

Section FitLines.

Variable measureText : String.string -> Q.
Variable maxWidth : Q.

(** An invariant of the loop over the words of [words] holds at its end. *)
Lemma fitWord_invariant
    (P : list String.string * String.string -> Prop)
    (words : list String.string) :
  (forall state word,
     In word words -> P state -> P (fitWord measureText maxWidth state word)) ->
  forall (ws : list String.string) state,
    incl ws words -> P state ->
    P (fold_left (fitWord measureText maxWidth) ws state).
Proof.
  intros Step ws. induction ws as [| word ws IH]; intros state I H; simpl.
  - exact H.
  - apply IH.
    + intros x Hx. apply I. right. exact Hx.
    + apply Step; [apply I; left; reflexivity | exact H].
Qed.

Lemma Forall_firstn_any {A : Type} (P : A -> Prop) (n : nat) :
  forall l : list A, Forall P l -> Forall P (firstn n l).
Proof.
  induction n as [| n IH]; intros l H; [constructor |].
  destruct H as [| x l Hx Hl]; simpl; constructor; auto.
Qed.

Lemma Forall_snoc_if {A : Type} (P : A -> Prop) (c : bool) (l : list A)
    (x : A) :
  Forall P l -> (c = true -> P x) -> Forall P (if c then l ++ [x] else l).
Proof.
  intros H K. destruct c; [| exact H].
  apply Forall_app. split; [exact H |]. constructor; [auto | constructor].
Qed.

(** The lines the loop and the last push build, before the cut to two. *)
Lemma fitLines_lines (P : String.string -> Prop) (text : String.string) :
  (forall word, In word (splitSpaces text) -> truthy word = true -> P word) ->
  (forall next, truthy next = true ->
                measureText next <= maxWidth -> P next) ->
  Forall P (fitLines measureText text maxWidth).
Proof.
  intros Hword Hfit. unfold fitLines.
  pose proof (fitWord_invariant
                (fun st => Forall P (fst st)
                           /\ (truthy (snd st) = true -> P (snd st)))
                (splitSpaces text)) as Inv.
  destruct (fold_left (fitWord measureText maxWidth) (splitSpaces text)
              ([], String.EmptyString)) as [lines current] eqn:E.
  assert (K : Forall P lines /\ (truthy current = true -> P current)).
  { change (Forall P (fst (lines, current))
            /\ (truthy (snd (lines, current)) = true
                -> P (snd (lines, current)))).
    rewrite <- E. apply Inv.
    - intros [ls cur] word Hin [Hl Hc]. unfold fitWord. simpl in Hl, Hc.
      destruct (gtb (measureText _) maxWidth) eqn:G; simpl.
      + split; [apply Forall_snoc_if; assumption |].
        intro T. apply Hword; assumption.
      + split; [exact Hl |]. intro T. apply Hfit; [exact T |].
        apply gtb_false, G.
    - apply incl_refl.
    - simpl. split; [constructor | discriminate]. }
  destruct K as [Kl Kc].
  apply Forall_firstn_any, Forall_snoc_if; assumption.
Qed.

End FitLines.

(** X11.  [fitLines] returns at most two lines and never an empty one,
    whatever the measure, the text and the width. *)
Theorem X11_fitLines_two_nonempty_lines
    (measureText : String.string -> Q) (text : String.string) (maxWidth : Q) :
  (length (fitLines measureText text maxWidth) <= 2)%nat
  /\ Forall (fun line => line <> String.EmptyString)
       (fitLines measureText text maxWidth).
Proof.
  split.
  - unfold fitLines.
    destruct (fold_left _ _ _) as [lines current]. apply firstn_le_length.
  - apply fitLines_lines.
    + intros word _ T E. rewrite E in T. discriminate.
    + intros next T _ E. rewrite E in T. discriminate.
Qed.

(** X12.  Every line [fitLines] returns is at most [maxWidth] wide, or is
    one word of the text alone: only a word too wide by itself overflows. *)
Theorem X12_fitLines_lines_fit_or_single_word
    (measureText : String.string -> Q) (text : String.string) (maxWidth : Q) :
  Forall (fun line =>
            measureText line <= maxWidth \/ In line (splitSpaces text))
    (fitLines measureText text maxWidth).
Proof.
  apply fitLines_lines.
  - intros word Hin _. right. exact Hin.
  - intros next _ Hfit. left. exact Hfit.
Qed.

Lemma splitSpaces_no_space (text : String.string) :
  hasSpace text = false -> splitSpaces text = [text].
Proof.
  induction text as [| c rest IH]; intro H; simpl in *; [reflexivity |].
  apply orb_false_iff in H as [Hc Hr]. rewrite Hc, (IH Hr). reflexivity.
Qed.

(** X13.  A text without a space comes back as it is, on one line, however
    wide it is; the empty text gives no line. *)
Theorem X13_fitLines_single_word
    (measureText : String.string -> Q) (text : String.string) (maxWidth : Q) :
  hasSpace text = false ->
  fitLines measureText text maxWidth
  = match text with
    | String.EmptyString => []
    | String.String _ _ => [text]
    end.
Proof.
  intro H. unfold fitLines. rewrite (splitSpaces_no_space text H).
  simpl. destruct (gtb (measureText text) maxWidth); destruct text;
    reflexivity.
Qed.

(** The theorem on a word twice as wide as the line. *)
Lemma X13_fitLines_single_word_witness :
  hasSpace "supercalifragilistic"%string = false
  /\ fitLines tenPerChar "supercalifragilistic"%string 100
     = ["supercalifragilistic"%string].
Proof.
  split; [reflexivity |].
  apply (X13_fitLines_single_word tenPerChar "supercalifragilistic"%string
           100 eq_refl).
Defined.

(** ** Interaction handlers *)

Lemma interact_wave_boost (e : InteractionEvent) (i : Interaction) :
  0 <= waveBoost i <= 48 -> 0 <= waveBoost (interact e i) <= 48.
Proof.
  intros [L U].
  destruct e as [now | x y w h | | [|]];
    cbn [interact waveBoost lastScrollY]; try (split; lra).
  pose proof (Qabs_nonneg (now - lastScrollY i)) as A.
  unfold Math_min. case_compare; split; lra.
Qed.

(** X14.  The scroll momentum stays in [0, 48] under any sequence of
    scrolls, pointer events and drawn frames; a scroll never lowers it and
    records the new position; a drawn frame multiplies it by 0.93, and a
    frame without a canvas context leaves it alone. *)
Theorem X14_wave_boost_bounded (es : list InteractionEvent) :
  forall i : Interaction,
    0 <= waveBoost i <= 48 ->
    0 <= waveBoost (interactAll es i) <= 48
    /\ (forall now : Q,
          waveBoost i <= waveBoost (interact (Scroll now) i)
          /\ lastScrollY (interact (Scroll now) i) = now)
    /\ waveBoost (interact (DrawWaves true) i) = waveBoost i * 0.93
    /\ interact (DrawWaves false) i = i.
Proof.
  induction es as [| e es IH]; intros i B.
  - split; [exact B |]. split; [| split; reflexivity].
    intro now. split; [| reflexivity]. cbn [interact waveBoost lastScrollY].
    pose proof (Qabs_nonneg (now - lastScrollY i)) as A.
    unfold Math_min. case_compare; lra.
  - destruct (IH (interact e i) (interact_wave_boost e i B)) as [K _].
    split; [exact K |]. split; [| split; reflexivity].
    intro now. split; [| reflexivity]. cbn [interact waveBoost lastScrollY].
    pose proof (Qabs_nonneg (now - lastScrollY i)) as A.
    unfold Math_min. case_compare; lra.
Qed.

(** The theorem on a scroll of 1000 pixels and a drawn frame. *)
Lemma X14_wave_boost_bounded_witness :
  0 <= waveBoost (initialInteraction 0) <= 48
  /\ 0 <= waveBoost (interactAll [Scroll 1000; DrawWaves true]
                       (initialInteraction 0)) <= 48.
Proof.
  assert (B : 0 <= waveBoost (initialInteraction 0) <= 48)
    by (simpl; split; lra).
  split; [exact B |].
  apply (X14_wave_boost_bounded [Scroll 1000; DrawWaves true]
           (initialInteraction 0) B).
Defined.

Lemma fraction_centered (x w : Q) :
  0 < w -> 0 <= x <= w -> - (1 # 2) <= x / w - 0.5 <= 1 # 2.
Proof.
  intros W [L U].
  assert (F0 : 0 <= x / w) by (apply Qle_shift_div_l; [exact W | lra]).
  assert (F1 : x / w <= 1) by (apply Qle_shift_div_r; [exact W | lra]).
  split; lra.
Qed.

Lemma interact_pointer (e : InteractionEvent) (i : Interaction) :
  insideWindow e ->
  (- (1 # 2) <= pointerX i <= 1 # 2) /\ (- (1 # 2) <= pointerY i <= 1 # 2) ->
  (- (1 # 2) <= pointerX (interact e i) <= 1 # 2)
  /\ (- (1 # 2) <= pointerY (interact e i) <= 1 # 2).
Proof.
  intros V [X Y].
  destruct e as [now | x y w h | | [|]];
    cbn [interact pointerX pointerY]; try (split; assumption).
  - destruct V as (W & H & Hx & Hy).
    split; apply fraction_centered; assumption.
  - split; split; lra.
Qed.

(** X15.  The pointer offsets stay in [-0.5, 0.5] on both axes under any
    sequence of events whose pointer moves lie inside a window that has a
    size; the pointer leaving puts both back to 0. *)
Theorem X15_pointer_normalized (es : list InteractionEvent) :
  forall i : Interaction,
    Forall insideWindow es ->
    (- (1 # 2) <= pointerX i <= 1 # 2) ->
    (- (1 # 2) <= pointerY i <= 1 # 2) ->
    (- (1 # 2) <= pointerX (interactAll es i) <= 1 # 2)
    /\ (- (1 # 2) <= pointerY (interactAll es i) <= 1 # 2)
    /\ pointerX (interact PointerLeave i) = 0
    /\ pointerY (interact PointerLeave i) = 0.
Proof.
  induction es as [| e es IH]; intros i V X Y.
  - simpl. auto.
  - inversion V as [| e' es' Ve Ves]; subst.
    destruct (interact_pointer e i Ve (conj X Y)) as [X' Y'].
    destruct (IH (interact e i) Ves X' Y') as (Kx & Ky & _).
    simpl. auto.
Qed.

(** The theorem on a move to the corner of a 1280 by 720 window. *)
Lemma X15_pointer_normalized_witness :
  Forall insideWindow [PointerMove 1280 0 1280 720; Scroll 40]
  /\ pointerX (interactAll [PointerMove 1280 0 1280 720; Scroll 40]
                 (initialInteraction 0)) <= 1 # 2.
Proof.
  assert (V : Forall insideWindow [PointerMove 1280 0 1280 720; Scroll 40]).
  { repeat constructor; simpl; lra. }
  split; [exact V |].
  assert (X : - (1 # 2) <= pointerX (initialInteraction 0) <= 1 # 2)
    by (simpl; split; lra).
  assert (Y : - (1 # 2) <= pointerY (initialInteraction 0) <= 1 # 2)
    by (simpl; split; lra).
  destruct (X15_pointer_normalized
              [PointerMove 1280 0 1280 720; Scroll 40]
              (initialInteraction 0) V X Y) as ([_ K] & _).
  exact K.
Defined.

(** ** [detectActiveScene] *)

Lemma nearestAmong_step (anchor : Q) (seen : list SceneRect)
    (rect : SceneRect) (bestIndex : nat) (bestDistance : option Q) :
  nearestAmong anchor seen bestIndex bestDistance ->
  let distance := sceneDistance anchor rect in
  if closer distance bestDistance
  then nearestAmong anchor (seen ++ [rect]) (length seen) (Some distance)
  else nearestAmong anchor (seen ++ [rect]) bestIndex bestDistance.
Proof.
  intros H distance. unfold nearestAmong in *.
  destruct bestDistance as [best |]; simpl closer.
  - destruct H as (B & N & A & F).
    rewrite map_app, length_app. simpl map. simpl length.
    destruct (gtb best distance) eqn:G.
    + apply gtb_true in G. fold distance. repeat split.
      * lia.
      * rewrite nth_error_app2 by (rewrite length_map; lia).
        rewrite length_map, Nat.sub_diag. reflexivity.
      * apply Forall_app. split.
        -- eapply Forall_impl; [| exact A]. simpl. intros d Hd. lra.
        -- constructor; [lra | constructor].
      * rewrite firstn_app, length_map, Nat.sub_diag. simpl.
        rewrite app_nil_r, firstn_all2 by (rewrite length_map; lia).
        eapply Forall_impl; [| exact A]. simpl. intros d Hd. lra.
    + apply gtb_false in G. fold distance. repeat split.
      * lia.
      * rewrite nth_error_app1 by (rewrite length_map; lia). exact N.
      * apply Forall_app. split; [exact A |].
        constructor; [exact G | constructor].
      * rewrite firstn_app, length_map.
        replace (bestIndex - length seen)%nat with O by lia.
        simpl. rewrite app_nil_r. exact F.
  - subst seen. cbn [app map length nth_error firstn].
    split; [lia | split; [reflexivity | split]].
    + constructor; [apply Qle_refl | constructor].
    + constructor.
Qed.

Lemma nearestFrom_spec (anchor : Q) (rects : list SceneRect) :
  forall (seen : list SceneRect) (bestIndex : nat) (bestDistance : option Q),
    nearestAmong anchor seen bestIndex bestDistance ->
    nearestAmong anchor (seen ++ rects)
      (fst (nearestFrom anchor rects (length seen) bestIndex bestDistance))
      (snd (nearestFrom anchor rects (length seen) bestIndex bestDistance)).
Proof.
  induction rects as [| rect rest IH]; intros seen bestIndex bestDistance H.
  - simpl. rewrite app_nil_r. exact H.
  - pose proof (nearestAmong_step anchor seen rect bestIndex bestDistance H)
      as S. cbv zeta in S. cbn [nearestFrom].
    replace (seen ++ rect :: rest) with ((seen ++ [rect]) ++ rest)
      by (rewrite <- app_assoc; reflexivity).
    replace (Datatypes.S (length seen)) with (length (seen ++ [rect]))
      by (rewrite length_app; simpl; lia).
    destruct (closer (sceneDistance anchor rect) bestDistance).
    + assert (E : length seen = (length (seen ++ [rect]) - 1)%nat)
        by (rewrite length_app; simpl; lia).
      specialize (IH (seen ++ [rect]) (length seen) _ S). exact IH.
    + apply IH, S.
Qed.

(** X16.  The loop of [detectActiveScene] finds the scene whose centre is
    nearest to the line at 42 % of the window height, the first of them
    when several are as near: its distance is at most every scene's and
    less than that of every scene before it.  Without scenes the index
    is 0. *)
Theorem X16_nearest_scene (innerHeight : Q) (rects : list SceneRect) :
  let anchor := innerHeight * 0.42 in
  let best := nearestScene innerHeight rects in
  match rects with
  | [] => best = 0%nat
  | _ :: _ =>
      (best < length rects)%nat
      /\ exists distance,
           nth_error (map (sceneDistance anchor) rects) best = Some distance
           /\ Forall (fun d => distance <= d)
                (map (sceneDistance anchor) rects)
           /\ Forall (fun d => distance < d)
                (firstn best (map (sceneDistance anchor) rects))
  end.
Proof.
  intros anchor best. destruct rects as [| rect rest]; [reflexivity |].
  pose proof (nearestFrom_spec anchor (rect :: rest) [] 0%nat None eq_refl)
    as H.
  change ([] ++ rect :: rest) with (rect :: rest) in H.
  change (length (@nil SceneRect)) with 0%nat in H.
  unfold best, nearestScene. fold anchor.
  set (res := nearestFrom anchor (rect :: rest) 0 0 None) in *.
  destruct res as [b [d |]]; unfold nearestAmong in H;
    cbn [fst snd] in *.
  - destruct H as (B & N & A & F). split; [exact B |].
    exists d. auto.
  - discriminate H.
Qed.

Lemma nearestScene_in_range (innerHeight : Q) (rect : SceneRect)
    (rest : list SceneRect) :
  (nearestScene innerHeight (rect :: rest) < length (rect :: rest))%nat.
Proof.
  pose proof (nearestFrom_spec (innerHeight * 0.42) (rect :: rest) [] 0%nat
                None eq_refl) as H.
  change ([] ++ rect :: rest) with (rect :: rest) in H.
  change (length (@nil SceneRect)) with 0%nat in H.
  unfold nearestScene.
  set (res := nearestFrom (innerHeight * 0.42) (rect :: rest) 0 0 None) in *.
  destruct res as [b [d |]]; unfold nearestAmong in H; cbn [fst snd] in *.
  - apply H.
  - discriminate H.
Qed.

(** X17.  After [detectActiveScene] on a page with scenes the active index
    is the nearest scene, and a second call in the same layout does not
    call [setActiveScene] again; [setActiveScene] is never called with the
    index that is already active; on a page without scenes the active
    index stays as it is. *)
Theorem X17_detect_active_scene (innerHeight : Q) (rects : list SceneRect)
    (activeIndex : nat) :
  let updated := activeIndexAfterDetect innerHeight rects activeIndex in
  detectActiveScene innerHeight rects activeIndex <> Some activeIndex
  /\ match rects with
     | [] => updated = activeIndex
     | _ :: _ =>
         updated = nearestScene innerHeight rects
         /\ detectActiveScene innerHeight rects updated = None
     end.
Proof.
  intro updated. split.
  - unfold detectActiveScene.
    destruct (Nat.eqb_spec (nearestScene innerHeight rects) activeIndex)
      as [E | N]; [discriminate | congruence].
  - destruct rects as [| rect rest].
    + unfold updated, activeIndexAfterDetect, detectActiveScene, setActiveIndex.
      destruct (nearestScene innerHeight [] =? activeIndex)%nat; reflexivity.
    + assert (A : updated = nearestScene innerHeight (rect :: rest)).
      { unfold updated, activeIndexAfterDetect, detectActiveScene,
          setActiveIndex.
        destruct (Nat.eqb_spec (nearestScene innerHeight (rect :: rest))
                    activeIndex) as [E | N]; [symmetry; exact E |].
        pose proof (nearestScene_in_range innerHeight rect rest) as R.
        apply Nat.ltb_lt in R. rewrite R. reflexivity. }
      split; [exact A |]. rewrite A. unfold detectActiveScene.
      rewrite Nat.eqb_refl. reflexivity.
Qed.

(** ** [ensureAudioEngine] *)

(** X18.  [ensureAudioEngine] resolves to [true] exactly when it leaves an
    audio element and a context; when it resolves to [false] the globals
    are untouched; it never touches the audio element or the meter; and
    once it has resolved to [true], calling it again, whatever the window
    then offers, changes nothing and resolves to [true] again. *)
Theorem X18_ensure_audio_engine_idempotent
    (newContext : option AudioContext) (newAnalyser : AnalyserNode)
    (h : Host) :
  let result := ensureAudioEngine newContext newAnalyser h in
  audioElement (engineHost result) = audioElement h
  /\ audioMeterFill (engineHost result) = audioMeterFill h
  /\ (if engineReady result
      then audioElement (engineHost result) <> None
           /\ audioContext (engineHost result) <> None
           /\ forall again analyser,
                ensureAudioEngine again analyser (engineHost result)
                = {| engineHost := engineHost result; engineReady := true;
                     engineStatus := None |}
      else engineHost result = h
           /\ (audioElement h = None
               \/ (audioContext h = None /\ newContext = None))).
Proof.
  intro result. subst result.
  destruct (audioElement h) as [el |] eqn:E.
  - destruct (audioContext h) as [ctx |] eqn:C.
    + assert (R : ensureAudioEngine newContext newAnalyser h
                  = {| engineHost := h; engineReady := true;
                       engineStatus := None |})
        by (unfold ensureAudioEngine; rewrite E, C; reflexivity).
      rewrite R. cbn [engineHost engineReady]. rewrite E, C.
      split; [reflexivity | split; [reflexivity |]].
      split; [discriminate | split; [discriminate |]].
      intros again analyser. unfold ensureAudioEngine. rewrite E, C.
      reflexivity.
    + destruct newContext as [context |].
      * assert (R : ensureAudioEngine (Some context) newAnalyser h
                    = {| engineHost :=
                           {| analyserNode := Some newAnalyser;
                              frequencyData := Some (repeat 0%Z 512);
                              audioContext := Some context;
                              audioElement := Some el;
                              audioMeterFill := audioMeterFill h |};
                         engineReady := true; engineStatus := None |})
          by (unfold ensureAudioEngine; rewrite E, C; reflexivity).
        rewrite R. cbn [engineHost engineReady audioElement audioMeterFill
                        audioContext].
        split; [reflexivity | split; [reflexivity |]].
        split; [discriminate | split; [discriminate |]].
        intros again analyser. reflexivity.
      * assert (R : engineHost (ensureAudioEngine None newAnalyser h) = h
                    /\ engineReady (ensureAudioEngine None newAnalyser h)
                       = false)
          by (unfold ensureAudioEngine; rewrite E, C; split; reflexivity).
        destruct R as [-> ->]. rewrite E.
        split; [reflexivity | split; [reflexivity |]].
        split; [reflexivity | right; split; reflexivity].
  - assert (R : ensureAudioEngine newContext newAnalyser h
                = {| engineHost := h; engineReady := false;
                     engineStatus := None |})
      by (unfold ensureAudioEngine; rewrite E; reflexivity).
    rewrite R. cbn [engineHost engineReady]. rewrite E.
    split; [reflexivity | split; [reflexivity |]].
    split; [reflexivity | left; reflexivity].
Qed.

(** X19.  [ensureAudioEngine] keeps the analyser and the context together:
    on globals where an analyser comes with a context it leaves globals of
    the same kind, so no later call of [updateAudioReactive] throws; and
    when it builds the engine the buffer has 512 bins, all zero. *)
Theorem X19_ensure_audio_engine_coherent
    (newContext : option AudioContext) (newAnalyser : AnalyserNode)
    (h : Host) :
  engineCoherent h = true ->
  let h' := engineHost (ensureAudioEngine newContext newAnalyser h) in
  engineCoherent h' = true
  /\ (forall (t : Q) (s : State),
        exists s' fill, updateAudioReactive h' t s = Return s' fill)
  /\ match audioContext h, audioContext h' with
     | None, Some context =>
         newContext = Some context
         /\ analyserNode h' = Some newAnalyser
         /\ frequencyData h' = Some (repeat 0%Z 512)
     | _, _ => h' = h
     end.
Proof.
  intros C h'.
  assert (K : engineCoherent h' = true
              /\ match audioContext h, audioContext h' with
                 | None, Some context =>
                     newContext = Some context
                     /\ analyserNode h' = Some newAnalyser
                     /\ frequencyData h' = Some (repeat 0%Z 512)
                 | _, _ => h' = h
                 end).
  { subst h'.
    destruct (audioElement h) as [el |] eqn:E;
      destruct (audioContext h) as [ctx |] eqn:X;
      try destruct newContext as [context |];
      unfold ensureAudioEngine; rewrite E, ?X; cbn [engineHost];
      (split; [first [exact C | reflexivity] |]);
      rewrite ?X; cbn [audioContext analyserNode frequencyData]; auto. }
  destruct K as [K1 K2]. split; [exact K1 | split; [| exact K2]].
  intros t s. apply coherent_no_throw, K1.
Qed.

(** The theorem on the page before the engine exists, in a browser that
    has Web Audio. *)
Lemma X19_ensure_audio_engine_coherent_witness :
  engineCoherent bareHost = true
  /\ frequencyData
       (engineHost
          (ensureAudioEngine (Some {| sampleRate := 44100 |})
             {| byteFrequencyData := bassSpectrum |} bareHost))
     = Some (repeat 0%Z 512).
Proof.
  split; [reflexivity |].
  destruct (X19_ensure_audio_engine_coherent
              (Some {| sampleRate := 44100 |})
              {| byteFrequencyData := bassSpectrum |} bareHost eq_refl)
    as (_ & _ & K).
  simpl in K. destruct K as (_ & _ & F). exact F.
Defined.

(** ** The detector again *)

Lemma detectBeat_threshold (t : Q) (s : State) :
  averageBass (detectBeat t s) = averageBass s
  /\ threshold (detectBeat t s) = threshold s.
Proof.
  destruct (detectBeat_frame t s) as (_ & _ & Fs & Fh).
  unfold threshold, averageBass. rewrite Fs, Fh. auto.
Qed.

(** X20.  A beat needs headroom: when a call fires, the smoothed bass it
    leaves is above 0.14 and above 1.32 times the average of the window,
    which holds that very sample, and the time stamp is past the gate.
    With the bass at most 1 the average is then below 25/33: a window that
    is loud throughout fires no beat. *)
Theorem X20_beat_needs_headroom (h : Host) (t : Q) (s : State) :
  beatFired h t s = true ->
  let s' := stateOf (updateAudioReactive h t s) in
  0.14 < audioBass s'
  /\ averageBass s' * 1.32 < audioBass s'
  /\ beatGateUntil s < t
  /\ (if Qlt_le_dec 1 (audioBass s') then True else averageBass s' < 25 # 33).
Proof.
  intros F s'. subst s'. host_cases h as node buf ctx A C.
  - destruct (update_live h t s node buf ctx A C) as [-> E]. simpl.
    rewrite E in F.
    set (p := beforeDetector (sampleRate ctx) (getByteFrequencyData node buf) s)
      in *.
    destruct (detectBeat_threshold t p) as [-> _].
    destruct (detectBeat_frame t p) as (_ & -> & _).
    destruct (beforeDetector_frame (sampleRate ctx)
                (getByteFrequencyData node buf) s) as [_ G]. fold p in G.
    unfold beatDetected in F. apply andb_true_iff in F as [F1 F2].
    apply gtb_true in F1, F2. rewrite G in F2.
    unfold threshold, Math_max in F1.
    destruct (Qlt_le_dec 0.14 (averageBass p * 1.32));
      destruct (Qlt_le_dec 1 (audioBass p)); repeat split; lra.
  - rewrite (beatFired_throws h t s C) in F. discriminate.
  - rewrite (beatFired_unavailable h t s A) in F. discriminate.
Qed.

(** The theorem on the third live frame of the sample page, where the
    beat of the saturated bass fires. *)
Lemma X20_beat_needs_headroom_witness :
  beatFired liveHost 0.032 (run (framesOn liveHost 0 2) initialState) = true
  /\ 0.14 < audioBass
              (stateOf (updateAudioReactive liveHost 0.032
                 (run (framesOn liveHost 0 2) initialState))).
Proof.
  assert (F : beatFired liveHost 0.032
                (run (framesOn liveHost 0 2) initialState) = true)
    by (vm_compute; reflexivity).
  split; [exact F |].
  apply (X20_beat_needs_headroom liveHost 0.032
           (run (framesOn liveHost 0 2) initialState) F).
Defined.

(** ** [resizeWaveCanvas] and [drawWaves] *)

Lemma orOne_positive (devicePixelRatio : option Q) :
  1 <= Math_max (orOne devicePixelRatio) 1.
Proof. unfold Math_max. case_compare; lra. Qed.

(** X21.  [resizeWaveCanvas] does nothing without the canvas context.  With
    it, the scale is the device pixel ratio, or 1 when the window has none,
    has 0 or has less than 1; the bitmap is the window size times the scale,
    rounded down, so for a window of non-negative size it is never smaller
    than the window in whole pixels. *)
Theorem X21_wave_canvas_size (devicePixelRatio : option Q)
    (innerWidth innerHeight : Q) (canvas : WaveCanvas) :
  0 <= innerWidth -> 0 <= innerHeight ->
  let resized :=
    resizeWaveCanvas true devicePixelRatio innerWidth innerHeight canvas in
  resizeWaveCanvas false devicePixelRatio innerWidth innerHeight canvas
  = canvas
  /\ 1 <= transformScale resized
  /\ (Qfloor innerWidth <= canvasWidth resized)%Z
  /\ (Qfloor innerHeight <= canvasHeight resized)%Z
  /\ inject_Z (canvasWidth resized) <= innerWidth * transformScale resized
  /\ inject_Z (canvasHeight resized) <= innerHeight * transformScale resized
  /\ styleWidth resized = innerWidth
  /\ styleHeight resized = innerHeight.
Proof.
  intros W H resized. subst resized. unfold resizeWaveCanvas.
  cbn [transformScale canvasWidth canvasHeight styleWidth styleHeight].
  pose proof (orOne_positive devicePixelRatio) as R.
  set (ratio := Math_max (orOne devicePixelRatio) 1) in *.
  unfold Math_floor.
  split; [reflexivity | split; [exact R |]].
  split; [apply Qfloor_resp_le; nra |].
  split; [apply Qfloor_resp_le; nra |].
  split; [apply Qfloor_le | split; [apply Qfloor_le | split; reflexivity]].
Qed.

(** The theorem on a 1280 by 720 window at a device pixel ratio of 1.5. *)
Lemma X21_wave_canvas_size_witness :
  canvasWidth (resizeWaveCanvas true (Some 1.5) 1280 720 defaultCanvas)
  = 1920%Z
  /\ 1 <= transformScale
            (resizeWaveCanvas true (Some 1.5) 1280 720 defaultCanvas).
Proof.
  split; [vm_compute; reflexivity |].
  assert (W : 0 <= 1280) by lra. assert (H : 0 <= 720) by lra.
  destruct (X21_wave_canvas_size (Some 1.5) 1280 720 defaultCanvas W H)
    as (_ & K & _).
  exact K.
Defined.


